(** * EcoRecycle client: points synchronisation and activity history

    A shallow embedding of the points/history part of the [EcoRecycleApp]
    class (fetchPoints, loadHistoryFromBackend, claimReward) and of the two
    history helpers (parseDeltaFromDetalle, formatFecha), followed by the
    properties the specification states about them. *)

From Stdlib Require Import ZArith NArith List Bool Lia String Ascii Decimal.
From Stdlib Require Import Permutation Sorted DecimalPos.
Import ListNotations.

(* ================================================================== *)
(** ** JavaScript strings and numbers *)
(* ================================================================== *)

Module JS.

(** A JavaScript string is a sequence of UTF-16 code units. *)
Definition jsstring := list N.

(** ASCII literals: every byte of the Rocq literal is one code unit. *)
Definition lit (s : string) : jsstring :=
  map N_of_ascii (list_ascii_of_string s).

Fixpoint str_eqb (a b : jsstring) : bool :=
  match a, b with
  | [], [] => true
  | x :: a', y :: b' => N.eqb x y && str_eqb a' b'
  | _, _ => false
  end.

(** Numbers.  The application only stores point counts, stock counts and
    epoch milliseconds; the model keeps the doubles of integral value
    ([JInt z] is the double whose value is the integer [z]), the two
    infinities and NaN. *)
Inductive jsnum := JInt (z : Z) | JInf (negative : bool) | JNaN.

(** JSON primitives as they reach the client after [res.json()], together
    with [undefined] for an absent property. *)
Inductive jsval :=
| VUndefined
| VNull
| VBool (b : bool)
| VNum (n : jsnum)
| VStr (s : jsstring).

(** ToBoolean. *)
Definition truthy (v : jsval) : bool :=
  match v with
  | VUndefined | VNull => false
  | VBool b => b
  | VNum (JInt z) => negb (z =? 0)%Z
  | VNum (JInf _) => true
  | VNum JNaN => false
  | VStr s => match s with [] => false | _ => true end
  end.

(** [a ?? b]. *)
Definition nullish (a b : jsval) : jsval :=
  match a with
  | VUndefined | VNull => b
  | _ => a
  end.

(** [a === b] against a string constant. *)
Definition strict_eq_str (v : jsval) (s : jsstring) : bool :=
  match v with
  | VStr t => str_eqb t s
  | _ => false
  end.

(** Relational operators on numbers: every comparison with NaN is false. *)
Definition num_lt (a b : jsnum) : bool :=
  match a, b with
  | JInt x, JInt y => (x <? y)%Z
  | JInf true, JInt _ => true
  | JInf true, JInf false => true
  | JInt _, JInf false => true
  | _, _ => false
  end.

Definition num_le (a b : jsnum) : bool :=
  match a, b with
  | JInt x, JInt y => (x <=? y)%Z
  | JInf true, JInt _ => true
  | JInf true, JInf _ => true
  | JInt _, JInf false => true
  | JInf false, JInf false => true
  | _, _ => false
  end.

Definition num_ge (a b : jsnum) : bool := num_le b a.

Definition num_neg (a : jsnum) : jsnum :=
  match a with
  | JInt x => JInt (- x)
  | JInf s => JInf (negb s)
  | JNaN => JNaN
  end.

Definition two53 : Z := 9007199254740992.

(** A non-negative integer rounded to 53 significant bits: to the nearest
    such value, and to the one with an even significand when two are
    equally near. *)
Definition round53 (z : Z) : Z :=
  if (z <? two53)%Z then z
  else
    let sh := (Z.log2 z - 52)%Z in
    let q := Z.shiftr z sh in
    let r := (z - Z.shiftl q sh)%Z in
    let half := Z.shiftl 1 (sh - 1) in
    Z.shiftl (if (half <? r)%Z || ((r =? half)%Z && Z.odd q) then q + 1 else q)%Z sh.

(** The Number value of a mathematical integer: the nearest double, ties
    to even; an infinity when the rounded magnitude reaches 2^1024. *)
Definition to_number (z : Z) : jsnum :=
  if (2 ^ 1024 <=? round53 (Z.abs z))%Z then JInf (z <? 0)%Z
  else JInt (if (z <? 0)%Z then - round53 (Z.abs z) else round53 (Z.abs z)).

(** [a - b]: the exact difference, rounded. *)
Definition num_sub (a b : jsnum) : jsnum :=
  match a, b with
  | JInt x, JInt y => to_number (x - y)
  | JInf s, JInt _ => JInf s
  | JInt _, JInf s => JInf (negb s)
  | JInf s, JInf t => if Bool.eqb s t then JNaN else JInf s
  | _, _ => JNaN
  end.

(** Character classes of the regular expressions below. *)
Definition is_digit (c : N) : bool := ((48 <=? c) && (c <=? 57))%N.

(** [\s]: WhiteSpace and LineTerminator code units. *)
Definition is_space (c : N) : bool :=
  (((9 <=? c) && (c <=? 13)) || (c =? 32) || (c =? 160) || (c =? 5760)
   || ((8192 <=? c) && (c <=? 8202)) || (c =? 8232) || (c =? 8233)
   || (c =? 8239) || (c =? 8287) || (c =? 12288) || (c =? 65279))%N.

Definition digit_val (c : N) : Z := Z.of_N c - 48.

Definition digits_val (ds : jsstring) : Z :=
  fold_left (fun acc c => acc * 10 + digit_val c)%Z ds 0%Z.

Fixpoint take_while (p : N -> bool) (s : jsstring) : jsstring :=
  match s with
  | x :: s' => if p x then x :: take_while p s' else []
  | [] => []
  end.

Fixpoint drop_while (p : N -> bool) (s : jsstring) : jsstring :=
  match s with
  | x :: s' => if p x then drop_while p s' else s
  | [] => []
  end.

(** The Number value of the longest run of decimal digits at the head of
    [u]; NaN when there is none. *)
Definition digits_or_nan (u : jsstring) : jsnum :=
  match take_while is_digit u with
  | [] => JNaN
  | ds => to_number (digits_val ds)
  end.

(** [parseInt(s, 10)]: skip leading white space, read an optional sign and
    the longest run of decimal digits; NaN when there is no digit.  The
    result is the Number value of the integer read, every digit taken into
    account (ECMAScript lets an engine replace the digits after the 20th
    by zeros; V8 reads them all). *)
Definition parseInt10 (s : jsstring) : jsnum :=
  let t := drop_while is_space s in
  match t with
  | 45%N :: u => num_neg (digits_or_nan u)
  | 43%N :: u => digits_or_nan u
  | _ => digits_or_nan t
  end.

(** The decimal digits of an integer, with a leading minus sign for the
    negative ones. *)
Fixpoint uint_units (d : Decimal.uint) : jsstring :=
  match d with
  | Nil => []
  | D0 d => 48%N :: uint_units d
  | D1 d => 49%N :: uint_units d
  | D2 d => 50%N :: uint_units d
  | D3 d => 51%N :: uint_units d
  | D4 d => 52%N :: uint_units d
  | D5 d => 53%N :: uint_units d
  | D6 d => 54%N :: uint_units d
  | D7 d => 55%N :: uint_units d
  | D8 d => 56%N :: uint_units d
  | D9 d => 57%N :: uint_units d
  end.

Definition int_toString (z : Z) : jsstring :=
  match Z.to_int z with
  | Decimal.Pos d => uint_units d
  | Decimal.Neg d => 45%N :: uint_units d
  end.

Definition is_int (n : jsnum) (x : Z) : bool :=
  match n with
  | JInt y => (y =? x)%Z
  | _ => false
  end.

(** The shortest decimal [s * 10^p] whose Number value is [x], for a
    double [x] of [nd] digits, trying [k] significant digits and more; of
    two candidates with [k] digits the one nearer to [x], the even one
    when they are equally near. *)
Fixpoint shortest_digits (fuel : nat) (k nd x : Z) : Z * Z :=
  match fuel with
  | O => (x, 0%Z)
  | S fuel' =>
      let p := (nd - k)%Z in
      if (p <=? 0)%Z then (x, 0%Z)
      else
        let lo := (x / 10 ^ p)%Z in
        let hi := (lo + 1)%Z in
        let ok_lo := is_int (to_number (lo * 10 ^ p)) x in
        let ok_hi := is_int (to_number (hi * 10 ^ p)) x in
        if ok_lo && ok_hi then
          if (x - lo * 10 ^ p <? hi * 10 ^ p - x)%Z then (lo, p)
          else if (hi * 10 ^ p - x <? x - lo * 10 ^ p)%Z then (hi, p)
          else if Z.even lo then (lo, p) else (hi, p)
        else if ok_lo then (lo, p)
        else if ok_hi then (hi, p)
        else shortest_digits fuel' (k + 1)%Z nd x
  end.

Definition is_zero_unit (c : N) : bool := N.eqb c 48.

(** The digits [ds] followed by [p] zeros stand for the value; the text is
    the plain decimal when it has at most 21 digits, and otherwise the
    exponent form [d.ddd e+n] on the digits without their final zeros. *)
Definition format_digits (ds : jsstring) (p : nat) : jsstring :=
  let tz := List.length (take_while is_zero_unit (List.rev ds)) in
  let sig := firstn (List.length ds - tz) ds in
  let n := (List.length ds + p)%nat in
  if (n <=? 21)%nat then ds ++ repeat 48%N p
  else
    match sig with
    | [] => ds ++ repeat 48%N p
    | d :: [] => d :: lit "e+" ++ int_toString (Z.of_nat n - 1)
    | d :: rest => d :: 46%N :: rest ++ lit "e+" ++ int_toString (Z.of_nat n - 1)
    end.

(** Number::toString on a non-negative integral double: below 2^53 the
    digits of the integer; from there on the shortest digits that read
    back as the same double. *)
Definition uint_toString (x : Z) : jsstring :=
  if (x <? two53)%Z then int_toString x
  else
    let '(s, p) := shortest_digits 17 1 (Z.of_nat (List.length (int_toString x))) x in
    format_digits (int_toString s) (Z.to_nat p).

(** Number::toString, radix 10. *)
Definition num_toString (n : jsnum) : jsstring :=
  match n with
  | JInt z => if (z <? 0)%Z then 45%N :: uint_toString (- z) else uint_toString z
  | JInf false => lit "Infinity"
  | JInf true => lit "-Infinity"
  | JNaN => lit "NaN"
  end.

(** Completion of a piece of code: a value, or a thrown exception. *)
Inductive exn := TypeError | NetworkError | SyntaxError.

Inductive completion (A : Type) :=
| Normal (a : A)
| Throw (e : exn).
Arguments Normal {A} a.
Arguments Throw {A} e.

Definition bind {A B} (m : completion A) (f : A -> completion B) : completion B :=
  match m with
  | Normal a => f a
  | Throw e => Throw e
  end.

(** [xs.map(f)] where the callback may throw: stops at the first throw. *)
Fixpoint map_throwing {A B} (f : A -> completion B) (xs : list A) : completion (list B) :=
  match xs with
  | [] => Normal []
  | x :: xs' =>
      bind (f x) (fun y => bind (map_throwing f xs') (fun ys => Normal (y :: ys)))
  end.

End JS.
Import JS.

(* ================================================================== *)
(** ** Regular expressions (backtracking matcher) *)
(* ================================================================== *)

Module Regex.

(** The fragment of the regular-expression syntax used by the helpers:
    a class of code units, sequence, greedy [*] and [?], and one capture
    group (group 1). *)
Inductive regex :=
| REmpty
| RChar (p : N -> bool)
| RSeq (a b : regex)
| ROpt (a : regex)
| RStar (a : regex)
| RGroup (a : regex).

Definition RPlus (a : regex) : regex := RSeq a (RStar a).

Fixpoint RSeqs (l : list regex) : regex :=
  match l with
  | [] => REmpty
  | a :: l' => RSeq a (RSeqs l')
  end.

(** The contents of group 1, if it took part in the match. *)
Definition capture := option jsstring.
Definition cont := jsstring -> capture -> option capture.
Definition matcher := jsstring -> capture -> cont -> option capture.

(** Greedy iteration: try one more round of [ma] (which has to consume
    input), fall back to the continuation. *)
Fixpoint star_loop (ma : matcher) (k : cont) (fuel : nat) (s : jsstring) (c : capture)
  : option capture :=
  match fuel with
  | O => k s c
  | S fuel' =>
      match ma s c (fun s1 c1 =>
                      if (List.length s1 <? List.length s)%nat
                      then star_loop ma k fuel' s1 c1 else None) with
      | Some m => Some m
      | None => k s c
      end
  end.

Fixpoint rmatch (r : regex) : matcher :=
  match r with
  | REmpty => fun s c k => k s c
  | RChar p => fun s c k =>
      match s with
      | x :: s' => if p x then k s' c else None
      | [] => None
      end
  | RSeq a b => fun s c k => rmatch a s c (fun s1 c1 => rmatch b s1 c1 k)
  | ROpt a => fun s c k =>
      match rmatch a s c k with
      | Some m => Some m
      | None => k s c
      end
  | RStar a => fun s c k => star_loop (rmatch a) k (List.length s) s c
  | RGroup a => fun s c k =>
      rmatch a s c (fun s1 _ => k s1 (Some (firstn (List.length s - List.length s1) s)))
  end.

(** Match anchored at the head of [s]. *)
Definition match_here (r : regex) (s : jsstring) : option capture :=
  rmatch r s None (fun _ c => Some c).

(** [s.match(r)] without the g flag: the leftmost match, trying every start
    index in turn; the result is group 1 of the match. *)
Fixpoint exec (r : regex) (s : jsstring) : option capture :=
  match match_here r s with
  | Some c => Some c
  | None =>
      match s with
      | [] => None
      | _ :: s' => exec r s'
      end
  end.

(** A pattern letter under the [i] flag.  Canonicalisation never maps a
    code unit above 127 to one below 128, so a lower-case ASCII letter [a]
    is matched by [a] and by its upper case [a - 32] only. *)
Definition ci (a : N) : regex :=
  RChar (fun c => N.eqb c a || N.eqb c (a - 32)).

(** A run of pattern letters under the [i] flag. *)
Definition word_ci (w : jsstring) : regex := RSeqs (map ci w).

Definition chr (x : N) : regex := RChar (fun c => N.eqb c x).

(** Greedy iteration of a class, unfolded along the input: the reading of
    [star_loop] that the proofs use. *)
Fixpoint star_class (p : N -> bool) (k : cont) (s : jsstring) (c : capture)
  : option capture :=
  match s with
  | x :: s' =>
      if p x then
        match star_class p k s' c with
        | Some m => Some m
        | None => k s c
        end
      else k s c
  | [] => k s c
  end.

(** A continuation that cannot start on a code unit of class [p]. *)
Definition blocked (p : N -> bool) (k : cont) : Prop :=
  forall x s c, p x = true -> k (x :: s) c = None.

End Regex.
Import Regex.

(* ================================================================== *)
(** ** History helpers *)
(* ================================================================== *)

(** [/\+(\d+)\s*puntos?/i] *)
Definition re_escaneo : regex :=
  RSeqs [ chr 43; RGroup (RPlus (RChar is_digit)); RStar (RChar is_space);
          word_ci (lit "punto"); ROpt (ci 115) ].

(** The class [[oó]] under the [i] flag: o, O, U+00F3 and U+00D3. *)
Definition o_class (c : N) : bool :=
  N.eqb c 111 || N.eqb c 79 || N.eqb c 243 || N.eqb c 211.

(** [/gast[oó]\s+(\d+)\s*pts/i] *)
Definition re_canje : regex :=
  RSeqs [ word_ci (lit "gast"); RChar o_class;
          RPlus (RChar is_space); RGroup (RPlus (RChar is_digit));
          RStar (RChar is_space); word_ci (lit "pts") ].

(** The class [[+-]]. *)
Definition sign_class (c : N) : bool := N.eqb c 43 || N.eqb c 45.

(** [/([+-]?\d+)/] *)
Definition re_generic : regex :=
  RGroup (RSeq (ROpt (RChar sign_class)) (RPlus (RChar is_digit))).

(** The tails [\s*puntos?] and [\s*pts] of the first two patterns. *)
Definition earn_tail : regex :=
  RSeqs [RStar (RChar is_space); word_ci (lit "punto"); ROpt (ci 115)].

Definition redeem_tail : regex :=
  RSeqs [RStar (RChar is_space); word_ci (lit "pts")].

(** [m ? parseInt(m[1], 10) : 0] *)
Definition group1_int (m : option capture) : jsnum :=
  match m with
  | Some (Some g) => parseInt10 g
  | Some None => JNaN
  | None => JInt 0
  end.

Definition str_escaneo : jsstring := lit "escaneo".
Definition str_canje : jsstring := lit "canje".

(** [parseDeltaFromDetalle(accion, detalle)].  A truthy [detalle] that is
    not a string has no [match] method: the call throws a TypeError. *)
Definition parseDeltaFromDetalle (accion detalle : jsval) : completion jsnum :=
  if negb (truthy detalle) then Normal (JInt 0)
  else
    match detalle with
    | VStr d =>
        if strict_eq_str accion str_escaneo then
          Normal (group1_int (exec re_escaneo d))
        else if strict_eq_str accion str_canje then
          Normal (match exec re_canje d with
                  | Some m => num_neg (group1_int (Some m))
                  | None => JInt 0
                  end)
        else Normal (group1_int (exec re_generic d))
    | _ => Throw TypeError
    end.

Definition o_acute : N := 243.

(* ================================================================== *)
(** ** The delta extraction as the specification words it *)
(* ================================================================== *)

Module Spec.

Inductive kind := Earn | Redeem | Other.

(** Earn if accion is "escaneo", Redeem if it is "canje", else Other. *)
Definition kind_of (accion : jsval) : kind :=
  if strict_eq_str accion str_escaneo then Earn
  else if strict_eq_str accion str_canje then Redeem
  else Other.

(** [w] (lower-case ASCII) is a prefix of [s], ignoring case. *)
Fixpoint starts_with_ci (w s : jsstring) : bool :=
  match w, s with
  | [], _ => true
  | a :: w', x :: s' => (N.eqb x a || N.eqb x (a - 32)) && starts_with_ci w' s'
  | _ :: _, [] => false
  end.

Definition nonempty (s : jsstring) : bool :=
  match s with [] => false | _ => true end.

(** A plus sign, digits, then the word puntos/punto (white space allowed
    in between), at the head of [s]. *)
Definition earn_here (s : jsstring) : option Z :=
  match s with
  | 43%N :: r =>
      let ds := take_while is_digit r in
      let rest := drop_while is_space (drop_while is_digit r) in
      if nonempty ds
         && (starts_with_ci (lit "puntos") rest || starts_with_ci (lit "punto") rest)
      then Some (digits_val ds) else None
  | _ => None
  end.

Definition is_o (c : N) : bool :=
  N.eqb c 111 || N.eqb c 79 || N.eqb c 243 || N.eqb c 211.

(** "gasto" or "gast" followed by an accented o, white space, digits, then
    "pts", at the head of [s]; the digits are negated. *)
Definition redeem_here (s : jsstring) : option Z :=
  if starts_with_ci (lit "gast") s then
    match skipn 4 s with
    | o :: r =>
        let r1 := drop_while is_space r in
        let ds := take_while is_digit r1 in
        let rest := drop_while is_space (drop_while is_digit r1) in
        if is_o o && nonempty (take_while is_space r) && nonempty ds
           && starts_with_ci (lit "pts") rest
        then Some (- digits_val ds)%Z else None
    | [] => None
    end
  else None.

(** A signed integer literal at the head of [s]. *)
Definition literal_here (s : jsstring) : option Z :=
  match s with
  | c :: r =>
      if is_digit c then Some (digits_val (take_while is_digit s))
      else if (N.eqb c 43 || N.eqb c 45) && nonempty (take_while is_digit r)
      then Some (if N.eqb c 45 then (- digits_val (take_while is_digit r))%Z
                 else digits_val (take_while is_digit r))
      else None
  | [] => None
  end.

(** The first position of [s] at which [f] finds something. *)
Fixpoint first_match (f : jsstring -> option Z) (s : jsstring) : option Z :=
  match f s with
  | Some v => Some v
  | None =>
      match s with
      | [] => None
      | _ :: s' => first_match f s'
      end
  end.

Definition or_zero (o : option Z) : Z :=
  match o with Some v => v | None => 0%Z end.

Definition delta (k : kind) (rawDetail : jsstring) : Z :=
  match k with
  | Earn => or_zero (first_match earn_here rawDetail)
  | Redeem => or_zero (first_match redeem_here rawDetail)
  | Other => or_zero (first_match literal_here rawDetail)
  end.

End Spec.

(** The code's match at the head of [s] against what the wording of the
    specification finds there: [f] gives the value, the capture parses to
    its magnitude [g v]. *)
Definition agree_here (r : regex) (f : jsstring -> option Z) (g : Z -> Z) : Prop :=
  forall s,
    match match_here r s with
    | Some m => exists v, f s = Some v /\ group1_int (Some m) = to_number (g v)
    | None => f s = None
    end.

(** A continuation that accepts whatever is left. *)
Definition always (k : cont) : Prop := forall s c, k s c <> None.

(* ================================================================== *)
(** ** Application state, effects and the monad of a method body *)
(* ================================================================== *)

(** One reward of [this.rewards], as [loadRewards] builds it. *)
Module Reward.
Record t := { id : Z; name : jsval; points : jsval; stock : jsval; partner : jsval }.
End Reward.

(** One entry of [this.serverHistory]. *)
Module Entry.
Record t := { accion : jsval; detalle : jsval; badge : jsstring; delta : jsnum;
              fecha : jsstring }.
End Entry.

(** The fields of [EcoRecycleApp] that the points and history code reads
    or writes. *)
Record App := {
  activeTab : jsstring;
  userPoints : jsnum;
  userPointsTotal : jsnum;
  _fetchingPoints : bool;
  _lastPointsFetch : Z;
  myRecyclingHistory : list (jsstring * jsnum);
  serverHistory : list Entry.t;
  rewards : list Reward.t
}.

(** The state the constructor leaves. *)
Definition new_App : App :=
  {| activeTab := lit "scanner"; userPoints := JInt 0; userPointsTotal := JInt 0;
     _fetchingPoints := false; _lastPointsFetch := 0;
     myRecyclingHistory := []; serverHistory := []; rewards := [] |}.

Definition set_userPoints (v : jsnum) (a : App) : App :=
  {| activeTab := activeTab a; userPoints := v; userPointsTotal := userPointsTotal a;
     _fetchingPoints := _fetchingPoints a; _lastPointsFetch := _lastPointsFetch a;
     myRecyclingHistory := myRecyclingHistory a; serverHistory := serverHistory a;
     rewards := rewards a |}.

Definition set_userPointsTotal (v : jsnum) (a : App) : App :=
  {| activeTab := activeTab a; userPoints := userPoints a; userPointsTotal := v;
     _fetchingPoints := _fetchingPoints a; _lastPointsFetch := _lastPointsFetch a;
     myRecyclingHistory := myRecyclingHistory a; serverHistory := serverHistory a;
     rewards := rewards a |}.

Definition set_fetchingPoints (v : bool) (a : App) : App :=
  {| activeTab := activeTab a; userPoints := userPoints a;
     userPointsTotal := userPointsTotal a;
     _fetchingPoints := v; _lastPointsFetch := _lastPointsFetch a;
     myRecyclingHistory := myRecyclingHistory a; serverHistory := serverHistory a;
     rewards := rewards a |}.

Definition set_lastPointsFetch (v : Z) (a : App) : App :=
  {| activeTab := activeTab a; userPoints := userPoints a;
     userPointsTotal := userPointsTotal a;
     _fetchingPoints := _fetchingPoints a; _lastPointsFetch := v;
     myRecyclingHistory := myRecyclingHistory a; serverHistory := serverHistory a;
     rewards := rewards a |}.

Definition set_serverHistory (v : list Entry.t) (a : App) : App :=
  {| activeTab := activeTab a; userPoints := userPoints a;
     userPointsTotal := userPointsTotal a;
     _fetchingPoints := _fetchingPoints a; _lastPointsFetch := _lastPointsFetch a;
     myRecyclingHistory := myRecyclingHistory a; serverHistory := v;
     rewards := rewards a |}.

(** Requests to the backend, by endpoint. *)
Inductive request :=
| GetPuntos (correo : jsstring)              (* GET /usuarios/{correo}/puntos *)
| GetPuntosAcumulados (correo : jsstring)    (* GET /usuarios/{correo}/puntos-acumulados *)
| GetHistorial (correo : jsstring)           (* GET /historial/{correo} *)
| PostCanjear (correo : jsstring) (premio : jsval).   (* POST /puntos/canjear *)

(** What a method does to the outside. *)
Inductive effect :=
| Fetch (r : request)
| ConsoleError (e : exn)
| Alert
| UpdatePointsDisplay (saldo total : jsnum)
| RenderRewards.

Definition is_fetch (e : effect) : bool :=
  match e with Fetch _ => true | _ => false end.

(** Does this run of effects contain a network request? *)
Definition issues_request (es : list effect) : bool := existsb is_fetch es.

(** A stretch of method body: it transforms the object, emits effects and
    completes normally or by throwing. *)
Definition M (A : Type) : Type := App -> App * list effect * completion A.

Definition ret {A} (a : A) : M A := fun st => (st, [], Normal a).

Definition bindM {A B} (m : M A) (f : A -> M B) : M B :=
  fun st =>
    let '(st1, e1, r) := m st in
    match r with
    | Normal a => let '(st2, e2, r2) := f a st1 in (st2, e1 ++ e2, r2)
    | Throw x => (st1, e1, Throw x)
    end.

Definition throw {A} (x : exn) : M A := fun st => (st, [], Throw x).
Definition emit (e : effect) : M unit := fun st => (st, [e], Normal tt).
Definition get : M App := fun st => (st, [], Normal st).
Definition modify (f : App -> App) : M unit := fun st => (f st, [], Normal tt).
Definition lift {A} (c : completion A) : M A := fun st => (st, [], c).

(** [try { body } catch (e) { handler(e) }] *)
Definition try_catch (body : M unit) (handler : exn -> M unit) : M unit :=
  fun st =>
    let '(st1, e1, r) := body st in
    match r with
    | Normal _ => (st1, e1, Normal tt)
    | Throw x => let '(st2, e2, r2) := handler x st1 in (st2, e1 ++ e2, r2)
    end.

(** [try { body } finally { fin }]: [fin] always runs; the completion is
    that of [body] unless [fin] itself throws. *)
Definition finally (body : M unit) (fin : M unit) : M unit :=
  fun st =>
    let '(st1, e1, r) := body st in
    let '(st2, e2, r2) := fin st1 in
    (st2, e1 ++ e2, match r2 with Normal _ => r | Throw x => Throw x end).

Notation "x <- m ;; k" := (bindM m (fun x => k))
  (at level 61, m at next level, right associativity).
Notation "m ;;; k" := (bindM m (fun _ => k))
  (at level 61, right associativity).

(** How a method invocation leaves its synchronous prefix. *)
Inductive control := Returned | Awaiting.

(** JSON bodies whose properties the code reads by name. *)
Inductive body :=
| BodyNull                                     (* null *)
| BodyObject (props : list (jsstring * jsval)) (* an object; primitive-valued properties *)
| BodyOther.                                   (* any other value: none of the names read *)

(** [o.name] on a parsed object: the last binding of the name. *)
Definition get_prop (name : jsstring) (props : list (jsstring * jsval)) : jsval :=
  match find (fun kv => str_eqb (fst kv) name) (List.rev props) with
  | Some kv => snd kv
  | None => VUndefined
  end.

(** [b?.name] *)
Definition opt_prop (b : body) (name : jsstring) : jsval :=
  match b with
  | BodyNull => VUndefined
  | BodyObject props => get_prop name props
  | BodyOther => VUndefined
  end.

(** A settled [fetch]: the response, whose body may or may not be JSON. *)
Inductive response := Response (parsed : option body).

(** [await res.json()] *)
Definition res_json (r : response) : M body :=
  match r with
  | Response (Some b) => ret b
  | Response None => throw SyntaxError
  end.

(** What the backend answers together with an HTTP error status: a JSON
    object with an [error] string.  [fetch] fulfils on such an answer, and
    [fetchPoints] reads neither [ok] nor [status], so a response is its
    body and nothing else. *)
Definition error_body (msg : jsstring) : body :=
  BodyObject [(lit "error", VStr msg)].

Definition error_response (msg : jsstring) : response :=
  Response (Some (error_body msg)).

(** How [Promise.all([fetch(..), fetch(..)])] settles: rejected when either
    request fails, otherwise both responses. *)
Inductive points_reply :=
| PointsRejected
| PointsFulfilled (saldoRes totalRes : response).

(** An element of the history array. *)
Inductive raw_item :=
| ItemNull                                     (* null: reading a property throws *)
| Item (accion detalle fecha : jsval).         (* an object and three of its properties *)

(** The parsed body of the history response. *)
Inductive history_body :=
| HistFalsy                                    (* null, false, 0 or the empty string *)
| HistArray (items : list raw_item)
| HistOther.                                   (* a truthy value without [map] *)

Inductive history_reply :=
| HistoryRejected                              (* fetch failed *)
| HistoryFulfilled (parsed : option history_body).

(** [localStorage.getItem('userEmail')] is a string or null; [!correo]. *)
Definition no_correo (correo : option jsstring) : bool :=
  match correo with
  | None => true
  | Some [] => true
  | Some _ => false
  end.

(** [x || 0] on a number. *)
Definition or0 (x : Z) : Z := if (x =? 0)%Z then 0%Z else x.

(** A string conversion that follows StringToNumber on the strings that are
    blank, a signed decimal integer, or free of digits and not Infinity. *)
Definition decimal_StringToNumber (s : jsstring) : jsnum :=
  let t := List.rev (drop_while is_space (List.rev (drop_while is_space s))) in
  match t with
  | [] => JInt 0
  | 45%N :: u => if forallb is_digit u then num_neg (digits_or_nan u) else JNaN
  | 43%N :: u => if forallb is_digit u then digits_or_nan u else JNaN
  | _ => if forallb is_digit t then digits_or_nan t else JNaN
  end.

(** A date runtime whose display form of a date is its epoch milliseconds. *)
Definition epoch_Date_parse (s : jsstring) : jsnum :=
  match s with
  | [] => JNaN
  | _ => if forallb is_digit s then JInt (digits_val s) else JNaN
  end.

Definition epoch_toLocaleString (t : Z) : jsstring := int_toString t.

(* ================================================================== *)
(** ** Form validation ([FormValidator], [ValidationUtils]) *)
(* ================================================================== *)

Module Validator.

(** [r.test(s)] for a pattern without anchors: a match at some index. *)
Definition test (r : regex) (s : jsstring) : bool :=
  match exec r s with
  | Some _ => true
  | None => false
  end.

(** The assertion [$]: only the end of the input is accepted. *)
Definition at_end : cont :=
  fun s c => match s with [] => Some c | _ :: _ => None end.

(** [/^r$/.test(s)]: the match starts at index 0 and ends at the end. *)
Definition test_whole (r : regex) (s : jsstring) : bool :=
  match rmatch r s None at_end with
  | Some _ => true
  | None => false
  end.

(** The class [[^\s@]]. *)
Definition not_space_at (c : N) : bool := negb (is_space c || N.eqb c 64).

(** The body of [/^[^\s@]+@[^\s@]+\.[^\s@]+$/]. *)
Definition re_email : regex :=
  RSeqs [ RPlus (RChar not_space_at); chr 64; RPlus (RChar not_space_at);
          chr 46; RPlus (RChar not_space_at) ].

(** [isValidEmail(email)] *)
Definition isValidEmail (email : jsstring) : bool := test_whole re_email email.

(** [s.trim()] *)
Definition trim (s : jsstring) : jsstring :=
  List.rev (drop_while is_space (List.rev (drop_while is_space s))).

(** One entry of [this.rules]; every key is optional.  [pattern] is the
    [test] of the regular expression. *)
Record rule := {
  required : option jsstring;
  minLength : option Z;
  minLengthMessage : option jsstring;
  pattern : option (jsstring -> bool);
  patternMessage : option jsstring;
  match_ : option jsstring;
  matchMessage : option jsstring
}.

Definition no_rule : rule :=
  {| required := None; minLength := None; minLengthMessage := None;
     pattern := None; patternMessage := None; match_ := None; matchMessage := None |}.

Definition a_acute : N := 225.
Definition n_tilde : N := 241.

Definition f_email : jsstring := lit "email".
Definition f_password : jsstring := lit "password".
Definition f_name : jsstring := lit "name".
Definition f_confirmPassword : jsstring := lit "confirmPassword".

Definition msg_email_required : jsstring := lit "El correo es obligatorio".
Definition msg_email_pattern : jsstring :=
  lit "Correo electr" ++ [o_acute] ++ lit "nico no v" ++ [a_acute] ++ lit "lido".
Definition msg_password_required : jsstring :=
  lit "La contrase" ++ [n_tilde] ++ lit "a es obligatoria".
Definition msg_password_minLength : jsstring :=
  lit "La contrase" ++ [n_tilde] ++ lit "a debe tener al menos 6 caracteres".
Definition msg_name_required : jsstring := lit "El nombre es obligatorio".
Definition msg_name_minLength : jsstring :=
  lit "El nombre debe tener al menos 2 caracteres".
Definition msg_confirm_required : jsstring :=
  lit "Confirma tu contrase" ++ [n_tilde] ++ lit "a".
Definition msg_confirm_match : jsstring :=
  lit "Las contrase" ++ [n_tilde] ++ lit "as no coinciden".

(** The property names that every object inherits from
    [Object.prototype]. *)
Definition inherited_names : list jsstring :=
  [ lit "constructor"; lit "__defineGetter__"; lit "__defineSetter__";
    lit "hasOwnProperty"; lit "__lookupGetter__"; lit "__lookupSetter__";
    lit "isPrototypeOf"; lit "propertyIsEnumerable"; lit "toString";
    lit "valueOf"; lit "__proto__"; lit "toLocaleString" ].

(** [this.rules[fieldName]]: the four rules of the constructor; an
    inherited name gives an object with none of the keys of a rule. *)
Definition rules (fieldName : jsstring) : option rule :=
  if str_eqb fieldName f_email then
    Some {| required := Some msg_email_required; minLength := None;
            minLengthMessage := None; pattern := Some isValidEmail;
            patternMessage := Some msg_email_pattern;
            match_ := None; matchMessage := None |}
  else if str_eqb fieldName f_password then
    Some {| required := Some msg_password_required; minLength := Some 6%Z;
            minLengthMessage := Some msg_password_minLength; pattern := None;
            patternMessage := None; match_ := None; matchMessage := None |}
  else if str_eqb fieldName f_name then
    Some {| required := Some msg_name_required; minLength := Some 2%Z;
            minLengthMessage := Some msg_name_minLength; pattern := None;
            patternMessage := None; match_ := None; matchMessage := None |}
  else if str_eqb fieldName f_confirmPassword then
    Some {| required := Some msg_confirm_required; minLength := None;
            minLengthMessage := None; pattern := None; patternMessage := None;
            match_ := Some f_password; matchMessage := Some msg_confirm_match |}
  else if existsb (str_eqb fieldName) inherited_names then Some no_rule
  else None.

(** Truthiness of an optional string-valued key. *)
Definition has_text (o : option jsstring) : bool :=
  match o with
  | Some (_ :: _) => true
  | _ => false
  end.

(** [!value || value.trim() === ''].  A truthy value that is not a string
    has no [trim]: TypeError. *)
Definition is_blank (value : jsval) : completion bool :=
  if negb (truthy value) then Normal true
  else
    match value with
    | VStr s => Normal (match trim s with [] => true | _ :: _ => false end)
    | _ => Throw TypeError
    end.

(** [a !== b] on primitives. *)
Definition strict_neq (a b : jsval) : bool :=
  match a, b with
  | VUndefined, VUndefined => false
  | VNull, VNull => false
  | VBool x, VBool y => negb (Bool.eqb x y)
  | VNum (JInt x), VNum (JInt y) => negb (x =? y)%Z
  | VStr x, VStr y => negb (str_eqb x y)
  | _, _ => true
  end.

(** [validateField(fieldName, value, formData)]: the message, or null. *)
Definition validateField (fieldName : jsstring) (value : jsval)
           (formData : list (jsstring * jsval)) : completion (option jsstring) :=
  match rules fieldName with
  | None => Normal None
  | Some rule =>
      bind (if has_text (required rule) then is_blank value else Normal false)
        (fun missing =>
      if missing then Normal (required rule)
      else
        bind (is_blank value) (fun blank =>
        if blank then Normal None
        else
          match value with
          | VStr s =>
              if match minLength rule with
                 | Some m => negb (m =? 0)%Z && (Z.of_nat (List.length s) <? m)%Z
                 | None => false
                 end
              then Normal (minLengthMessage rule)
              else if match pattern rule with
                      | Some test => negb (test s)
                      | None => false
                      end
              then Normal (patternMessage rule)
              else if match match_ rule with
                      | Some other => has_text (Some other)
                                      && strict_neq (get_prop other formData) value
                      | None => false
                      end
              then Normal (matchMessage rule)
              else Normal None
          | _ => Throw TypeError
          end))
  end.

(** [errors[fieldName] = error] on an object whose keys are not array
    indices: an existing key keeps its place, a new one goes last. *)
Fixpoint obj_set (errors : list (jsstring * jsstring)) (k v : jsstring)
  : list (jsstring * jsstring) :=
  match errors with
  | [] => [(k, v)]
  | (k', v') :: rest =>
      if str_eqb k' k then (k', v) :: rest else (k', v') :: obj_set rest k v
  end.

(** [validateForm(formData, fieldsToValidate)] *)
Fixpoint validateForm_from (errors : list (jsstring * jsstring))
         (formData : list (jsstring * jsval)) (fieldsToValidate : list jsstring)
  : completion (list (jsstring * jsstring)) :=
  match fieldsToValidate with
  | [] => Normal errors
  | fieldName :: rest =>
      bind (validateField fieldName (get_prop fieldName formData) formData)
        (fun error =>
           validateForm_from
             (match error with
              | Some (c :: m) => obj_set errors fieldName (c :: m)
              | _ => errors
              end) formData rest)
  end.

Definition validateForm (formData : list (jsstring * jsval))
           (fieldsToValidate : list jsstring) : completion (list (jsstring * jsstring)) :=
  validateForm_from [] formData fieldsToValidate.

Definition validateLogin (loginData : list (jsstring * jsval)) :=
  validateForm loginData [f_email; f_password].

Definition validateRegister (registerData : list (jsstring * jsval)) :=
  validateForm registerData [f_name; f_email; f_password; f_confirmPassword].

(** The objects [{email, password}] and [{name, email, password,
    confirmPassword}] that the login page builds from its inputs. *)
Definition login_form (email password : jsstring) : list (jsstring * jsval) :=
  [(f_email, VStr email); (f_password, VStr password)].

Definition register_form (name email password confirmPassword : jsstring)
  : list (jsstring * jsval) :=
  [(f_name, VStr name); (f_email, VStr email); (f_password, VStr password);
   (f_confirmPassword, VStr confirmPassword)].

(** The classes [[a-z]] and [[A-Z]], and the class of the fifth check: the
    29 punctuation marks ! @ # $ % ^ & * ( ) _ + - = [ ] { } ; ' : (double
    quote) \ | , . < > ? *)
Definition is_lower (c : N) : bool := ((97 <=? c) && (c <=? 122))%N.
Definition is_upper (c : N) : bool := ((65 <=? c) && (c <=? 90))%N.
Definition is_special (c : N) : bool :=
  existsb (N.eqb c)
    [33; 64; 35; 36; 37; 94; 38; 42; 40; 41; 95; 43; 45; 61; 91; 93; 123; 125;
     59; 39; 58; 34; 92; 124; 44; 46; 60; 62; 63]%N.

Definition i_acute : N := 237.
Definition u_acute : N := 250.

Definition fb_length : jsstring := lit "M" ++ [i_acute] ++ lit "nimo 6 caracteres".
Definition fb_digit : jsstring := lit "Incluye al menos un n" ++ [u_acute] ++ lit "mero".
Definition fb_lower : jsstring := lit "Incluye letras min" ++ [u_acute] ++ lit "sculas".
Definition fb_upper : jsstring := lit "Incluye letras may" ++ [u_acute] ++ lit "sculas".
Definition fb_special : jsstring := lit "Incluye caracteres especiales".

Record strength := { score : Z; feedback : list jsstring; isStrong : bool }.

(** One of the five checks: add a point, or push the hint. *)
Definition check (ok : bool) (hint : jsstring) (r : strength) : strength :=
  if ok then {| score := score r + 1; feedback := feedback r; isStrong := isStrong r |}
  else {| score := score r; feedback := feedback r ++ [hint]; isStrong := isStrong r |}.

(** [validatePasswordStrength(password)] *)
Definition validatePasswordStrength (password : jsstring) : strength :=
  let result := {| score := 0; feedback := []; isStrong := false |} in
  match password with
  | [] => result
  | _ :: _ =>
      let r1 := check (6 <=? Z.of_nat (List.length password))%Z fb_length result in
      let r2 := check (test (RChar is_digit) password) fb_digit r1 in
      let r3 := check (test (RChar is_lower) password) fb_lower r2 in
      let r4 := check (test (RChar is_upper) password) fb_upper r3 in
      let r5 := check (test (RChar is_special) password) fb_special r4 in
      {| score := score r5; feedback := feedback r5; isStrong := (3 <=? score r5)%Z |}
  end.

(** [sanitizeInput(value)]: trim, drop every [<] and [>], keep 255 units. *)
Definition sanitizeInput (value : jsval) : jsstring :=
  match value with
  | VStr s =>
      firstn 255 (filter (fun c => negb (N.eqb c 60 || N.eqb c 62)) (trim s))
  | _ => []
  end.

(** The table of [escapeHtml]. *)
Definition html_entity (c : N) : option jsstring :=
  if N.eqb c 38 then Some (lit "&amp;")
  else if N.eqb c 60 then Some (lit "&lt;")
  else if N.eqb c 62 then Some (lit "&gt;")
  else if N.eqb c 34 then Some (lit "&quot;")
  else if N.eqb c 39 then Some (lit "&#039;")
  else None.

(** [escapeHtml(text)]: every ampersand, angle bracket, double quote and
    apostrophe is replaced by its entry of the table. *)
Definition escapeHtml (text : jsstring) : jsstring :=
  flat_map (fun c => match html_entity c with Some e => e | None => [c] end) text.

(** What [escapeHtml] puts in place of one code unit. *)
Definition escape_unit (c : N) : jsstring :=
  match html_entity c with Some e => e | None => [c] end.

(** Not an angle bracket, a double quote or an apostrophe. *)
Definition html_safe (c : N) : bool :=
  negb (N.eqb c 60 || N.eqb c 62 || N.eqb c 34 || N.eqb c 39).

(** A code unit that the table leaves alone. *)
Definition html_plain (c : N) : bool :=
  match html_entity c with Some _ => false | None => true end.

(** 1 for true, 0 for false. *)
Definition b2z (b : bool) : Z := if b then 1%Z else 0%Z.

End Validator.

(** Sample data for the worked instances below. *)
Definition demo_correo : jsstring := lit "ana@eco.co".

Definition demo_reward : Reward.t :=
  {| Reward.id := 1; Reward.name := VStr (lit "Entrada cine");
     Reward.points := VNum (JInt 150); Reward.stock := VNum (JInt 3);
     Reward.partner := VStr [] |}.

Definition demo_entry : Entry.t :=
  {| Entry.accion := VStr (lit "escaneo");
     Entry.detalle := VStr (lit "+4 puntos por reciclaje");
     Entry.badge := lit "+4"; Entry.delta := JInt 4; Entry.fecha := lit "Ahora" |}.

(** An object with a balance of 120, a total of 340, one history entry and
    one reward, on the rewards tab, last refreshed at time 0. *)
Definition demo_App : App :=
  {| activeTab := lit "rewards"; userPoints := JInt 120; userPointsTotal := JInt 340;
     _fetchingPoints := false; _lastPointsFetch := 0;
     myRecyclingHistory := []; serverHistory := [demo_entry];
     rewards := [demo_reward] |}.

(** [{accion: "escaneo", detalle: "+5 puntos por reciclaje", fecha: f}] *)
Definition item_escaneo (fecha : jsval) : raw_item :=
  Item (VStr (lit "escaneo")) (VStr (lit "+5 puntos por reciclaje")) fecha.

(** [{accion: "canje", detalle: "Gastó 150 pts por: Entrada cine"}] *)
Definition item_canje : raw_item :=
  Item (VStr (lit "canje"))
       (VStr (lit "Gast" ++ [o_acute] ++ lit " 150 pts por: Entrada cine"))
       VUndefined.

(* ================================================================== *)
(** ** The methods *)
(* ================================================================== *)

Section Runtime.

(** Builtins of the browser's JavaScript runtime that the page calls and
    whose results depend on the engine and its locale. *)

(** [Number(s)] on a string. *)
Variable StringToNumber : jsstring -> jsnum.

(** The time value of [new Date(s)] for a string [s]; NaN for an Invalid Date. *)
Variable Date_parse : jsstring -> jsnum.

(** [d.toLocaleString()] of the valid date with time value [t]. *)
Variable toLocaleString : Z -> jsstring.

(** ToNumber. *)
Definition ToNumber (v : jsval) : jsnum :=
  match v with
  | VUndefined => JNaN
  | VNull => JInt 0
  | VBool b => JInt (if b then 1 else 0)
  | VNum n => n
  | VStr s => StringToNumber s
  end.

(** TimeClip. *)
Definition TimeClip (n : jsnum) : jsnum :=
  match n with
  | JInt t => if (Z.abs t <=? 8640000000000000)%Z then JInt t else JNaN
  | JInf _ => JNaN
  | JNaN => JNaN
  end.

(** The time value of [new Date(v)]. *)
Definition Date_of (v : jsval) : jsnum :=
  match v with
  | VStr s => Date_parse s
  | _ => TimeClip (ToNumber v)
  end.

Definition str_Ahora : jsstring := lit "Ahora".

(** [formatFecha(fechaISO)] *)
Definition formatFecha (fechaISO : jsval) : jsstring :=
  match Date_of fechaISO with
  | JNaN => str_Ahora
  | JInf _ => str_Ahora
  | JInt t => toLocaleString t
  end.

(** *** fetchPoints *)

Definition updatePointsDisplay : M unit :=
  st <- get ;; emit (UpdatePointsDisplay (userPoints st) (userPointsTotal st)).

Definition renderRewards : M unit := emit RenderRewards.

Definition str_puntos : jsstring := lit "puntos".
Definition str_puntos_acumulados : jsstring := lit "puntos_acumulados".
Definition str_rewards : jsstring := lit "rewards".

(** [fetchPoints()], from the call to the [await]:
    [if (this._fetchingPoints) return;]
    [if (now - (this._lastPointsFetch || 0) < 8000) return;]
    [if (!correo) return;]
    then the two gate fields are set and [Promise.all] starts the two
    requests.  [now] is [Date.now()], [correo] the stored [userEmail]. *)
Definition fetchPoints_begin (now : Z) (correo : option jsstring) (st : App)
  : App * list effect * control :=
  if _fetchingPoints st then (st, [], Returned)
  else if (now - or0 (_lastPointsFetch st) <? 8000)%Z then (st, [], Returned)
  else
    match correo with
    | None => (st, [], Returned)
    | Some [] => (st, [], Returned)
    | Some c =>
        (set_lastPointsFetch now (set_fetchingPoints true st),
         [Fetch (GetPuntos c); Fetch (GetPuntosAcumulados c)],
         Awaiting)
    end.

(** [await Promise.all([...])] *)
Definition await_all (r : points_reply) : M (response * response) :=
  match r with
  | PointsRejected => throw NetworkError
  | PointsFulfilled saldoRes totalRes => ret (saldoRes, totalRes)
  end.

(** [fetchPoints()], from the [await] on: the [try] block resumes with the
    settled pair, parses the two bodies, assigns
    [Number(saldo?.puntos ?? 0)] and [Number(total?.puntos_acumulados ?? 0)],
    refreshes the display; [catch] logs; [finally] lowers the flag. *)
Definition fetchPoints_resume (r : points_reply) : M unit :=
  finally
    (try_catch
       (rs <- await_all r ;;
        saldo <- res_json (fst rs) ;;
        total <- res_json (snd rs) ;;
        modify (set_userPoints
                  (ToNumber (nullish (opt_prop saldo str_puntos) (VNum (JInt 0))))) ;;;
        modify (set_userPointsTotal
                  (ToNumber (nullish (opt_prop total str_puntos_acumulados)
                                     (VNum (JInt 0))))) ;;;
        updatePointsDisplay ;;;
        st <- get ;;
        if str_eqb (activeTab st) str_rewards then renderRewards else ret tt)
       (fun e => emit (ConsoleError e)))
    (modify (set_fetchingPoints false)).

(** *** loadHistoryFromBackend *)

(** The callback of [raw.map]: delta, badge
    ([delta >= 0 ? `+${delta}` : `${delta}`]) and
    [fecha: h.fecha ? formatFecha(h.fecha) : 'Ahora']. *)
Definition history_entry (h : raw_item) : completion Entry.t :=
  match h with
  | ItemNull => Throw TypeError
  | Item accion detalle fecha =>
      bind (parseDeltaFromDetalle accion detalle) (fun delta =>
        let badge :=
          if num_ge delta (JInt 0) then 43%N :: num_toString delta
          else num_toString delta in
        Normal {| Entry.accion := accion;
                  Entry.detalle := detalle;
                  Entry.badge := badge;
                  Entry.delta := delta;
                  Entry.fecha := if truthy fecha then formatFecha fecha else str_Ahora |})
  end.

(** [(raw || []).map(...)] *)
Definition history_entries (raw : history_body) : completion (list Entry.t) :=
  match raw with
  | HistFalsy => Normal []
  | HistArray items => map_throwing history_entry items
  | HistOther => Throw TypeError
  end.

(** The comparator [(a, b) => new Date(b.fecha) - new Date(a.fecha)]. *)
Definition by_fecha (a b : Entry.t) : jsnum :=
  num_sub (Date_parse (Entry.fecha b)) (Date_parse (Entry.fecha a)).

(** [Array.prototype.sort(comparefn)] as a stable straight insertion: each
    element moves left past the elements that compare greater than it.  A
    NaN from the comparator counts as 0.  [placed] is the sorted prefix,
    rightmost element first.
    ECMAScript fixes the result of [sort] only for a consistent
    comparator; when it is not (here: a NaN between an undated and a dated
    entry) the order is left to the engine.  This definition gives the
    order of every engine when all the entries are dated, and on arrays
    of at most two elements; on longer arrays with undated entries it is
    one of the permutations an engine may return, and the properties
    below use it there as a permutation only. *)
Fixpoint sort_insert (comparefn : Entry.t -> Entry.t -> jsnum) (element : Entry.t)
         (placed : list Entry.t) : list Entry.t :=
  match placed with
  | [] => [element]
  | tmp :: rest =>
      if num_lt (JInt 0) (comparefn tmp element)
      then tmp :: sort_insert comparefn element rest
      else element :: placed
  end.

Definition array_sort (comparefn : Entry.t -> Entry.t -> jsnum) (xs : list Entry.t)
  : list Entry.t :=
  List.rev (fold_left (fun placed x => sort_insert comparefn x placed) xs []).

(** [loadHistoryFromBackend()], up to the [await] of the request. *)
Definition loadHistory_begin (correo : option jsstring) (st : App)
  : App * list effect * control :=
  match correo with
  | None => (st, [], Returned)
  | Some [] => (st, [], Returned)
  | Some c => (st, [Fetch (GetHistorial c)], Awaiting)
  end.

(** [await fetch(...)] followed by [await res.json()] *)
Definition await_history (r : history_reply) : M history_body :=
  match r with
  | HistoryRejected => throw NetworkError
  | HistoryFulfilled None => throw SyntaxError
  | HistoryFulfilled (Some raw) => ret raw
  end.

(** [loadHistoryFromBackend()], from the [await] on: the mapped array is
    assigned to [this.serverHistory], which is then sorted in place;
    [catch] logs. *)
Definition loadHistory_resume (r : history_reply) : M unit :=
  try_catch
    (raw <- await_history r ;;
     entries <- lift (history_entries raw) ;;
     modify (set_serverHistory entries) ;;;
     st <- get ;;
     modify (set_serverHistory (array_sort by_fecha (serverHistory st))))
    (fun e => emit (ConsoleError e)).

(** *** claimReward: from the call to the first [await] *)

(** [this.rewards.find(r => r.id === rewardId)] *)
Definition find_reward (rewardId : jsnum) (rs : list Reward.t) : option Reward.t :=
  find (fun r => match rewardId with
                 | JInt i => (Reward.id r =? i)%Z
                 | JInf _ => false
                 | JNaN => false
                 end) rs.

(** [if (!reward) return;]
    [if ((reward.stock ?? 0) <= 0) return;]
    [if (this.userPoints < reward.points) return;]
    then, inside [try], the identifier check (with its alert) and the
    request. *)
Definition claimReward_begin (rewardId : jsnum) (correo : option jsstring) (st : App)
  : App * list effect * control :=
  match find_reward rewardId (rewards st) with
  | None => (st, [], Returned)
  | Some reward =>
      if num_le (ToNumber (nullish (Reward.stock reward) (VNum (JInt 0)))) (JInt 0)
      then (st, [], Returned)
      else if num_lt (userPoints st) (ToNumber (Reward.points reward))
      then (st, [], Returned)
      else
        match correo with
        | None => (st, [Alert], Returned)
        | Some [] => (st, [Alert], Returned)
        | Some c => (st, [Fetch (PostCanjear c (Reward.name reward))], Awaiting)
        end
  end.

(** *** Sequences of fetchPoints activity on one object *)

(** What can happen to the object as far as the gate is concerned: the
    method is invoked (wall clock [now], stored identifier [correo]), or
    the pending pair of requests of a suspended invocation settles. *)
Inductive event :=
| CallFetchPoints (now : Z) (correo : option jsstring)
| SettleFetchPoints (r : points_reply).

(** The object together with the number of invocations suspended at
    their [await]. *)
Record world := { app : App; suspended : nat }.

Definition step (w : world) (e : event) : world * list effect :=
  match e with
  | CallFetchPoints now correo =>
      let '(st, es, c) := fetchPoints_begin now correo (app w) in
      ({| app := st;
          suspended := match c with
                       | Awaiting => S (suspended w)
                       | Returned => suspended w
                       end |}, es)
  | SettleFetchPoints r =>
      match suspended w with
      | O => (w, [])
      | S n =>
          let '(st, es, _) := fetchPoints_resume r (app w) in
          ({| app := st; suspended := n |}, es)
      end
  end.

(** The effects of each event of a run, in order. *)
Fixpoint trace (w : world) (evs : list event) : list (list effect) :=
  match evs with
  | [] => []
  | e :: evs' => let '(w', es) := step w e in es :: trace w' evs'
  end.

Fixpoint run (w : world) (evs : list event) : world :=
  match evs with
  | [] => w
  | e :: evs' => run (fst (step w e)) evs'
  end.

(** *** loadRewards, renderRewards, renderHistory, addToHistory *)

Definition set_rewards (v : list Reward.t) (a : App) : App :=
  {| activeTab := activeTab a; userPoints := userPoints a;
     userPointsTotal := userPointsTotal a;
     _fetchingPoints := _fetchingPoints a; _lastPointsFetch := _lastPointsFetch a;
     myRecyclingHistory := myRecyclingHistory a; serverHistory := serverHistory a;
     rewards := v |}.

Definition set_myRecyclingHistory (v : list (jsstring * jsnum)) (a : App) : App :=
  {| activeTab := activeTab a; userPoints := userPoints a;
     userPointsTotal := userPointsTotal a;
     _fetchingPoints := _fetchingPoints a; _lastPointsFetch := _lastPointsFetch a;
     myRecyclingHistory := v; serverHistory := serverHistory a;
     rewards := rewards a |}.

(** An element of the array of [/premios]. *)
Inductive premio_item :=
| PremioNull                                   (* null: reading a property throws *)
| Premio (nombre puntos_necesarios stock partner : jsval).

Inductive premios_body :=
| PremiosFalsy                                 (* null, false, 0 or the empty string *)
| PremiosArray (items : list premio_item)
| PremiosOther.                                (* a truthy value without [map] *)

Inductive premios_reply :=
| PremiosRejected                              (* fetch failed *)
| PremiosFulfilled (parsed : option premios_body).

(** The callback [(p, i) => ({ id: i + 1, name: p.nombre,
    points: p.puntos_necesarios,
    stock: typeof p.stock === 'number' ? p.stock : 0,
    partner: p.partner || '' })]. *)
Definition reward_of (i : nat) (p : premio_item) : completion Reward.t :=
  match p with
  | PremioNull => Throw TypeError
  | Premio nombre puntos_necesarios stock partner =>
      Normal {| Reward.id := Z.of_nat i + 1;
                Reward.name := nombre;
                Reward.points := puntos_necesarios;
                Reward.stock := match stock with
                                | VNum n => VNum n
                                | _ => VNum (JInt 0)
                                end;
                Reward.partner := if truthy partner then partner else VStr [] |}
  end.

(** [xs.map((x, i) => f(i, x))] from index [i] on, with a callback that
    may throw. *)
Fixpoint map_indexed (f : nat -> premio_item -> completion Reward.t) (i : nat)
         (xs : list premio_item) : completion (list Reward.t) :=
  match xs with
  | [] => Normal []
  | x :: xs' =>
      bind (f i x) (fun y => bind (map_indexed f (S i) xs') (fun ys => Normal (y :: ys)))
  end.

(** [(premios || []).map(...)] *)
Definition rewards_of (premios : premios_body) : completion (list Reward.t) :=
  match premios with
  | PremiosFalsy => Normal []
  | PremiosArray items => map_indexed reward_of 0 items
  | PremiosOther => Throw TypeError
  end.

Definition await_premios (r : premios_reply) : M premios_body :=
  match r with
  | PremiosRejected => throw NetworkError
  | PremiosFulfilled None => throw SyntaxError
  | PremiosFulfilled (Some premios) => ret premios
  end.

(** [loadRewards()], from the [await] of the request on: the mapped array
    replaces [this.rewards] and the rewards are rendered; [catch] logs. *)
Definition loadRewards_resume (r : premios_reply) : M unit :=
  try_catch
    (premios <- await_premios r ;;
     rs <- lift (rewards_of premios) ;;
     modify (set_rewards rs) ;;;
     renderRewards)
    (fun e => emit (ConsoleError e)).

Definition str_Agotado : jsstring := lit "Agotado".
Definition str_Faltan_pts : jsstring := lit "Faltan pts".
Definition str_Canjear : jsstring := lit "Canjear".

(** What [renderRewards] decides for one reward: [sinPuntos], [agotado],
    then whether the button is [disabled] and its caption. *)
Definition reward_button (st : App) (reward : Reward.t) : bool * jsstring :=
  let sinPuntos := num_lt (userPoints st) (ToNumber (Reward.points reward)) in
  let agotado :=
    num_le (ToNumber (nullish (Reward.stock reward) (VNum (JInt 0)))) (JInt 0) in
  (sinPuntos || agotado,
   if agotado then str_Agotado else if sinPuntos then str_Faltan_pts else str_Canjear).

(** [addToHistory(item, points)]: the record goes to the front of the
    local log (the record's other fields are constants: [time] is
    'Ahora'). *)
Definition addToHistory (item : jsstring) (points : jsnum) (st : App) : App :=
  set_myRecyclingHistory ((item, points) :: myRecyclingHistory st) st.

(** The entry [renderHistory] makes of a record of the local log:
    [{accion: 'escaneo', detalle: `+${h.points} puntos por reciclaje`,
      badge: `+${h.points}`, delta: +h.points, fecha: h.time || 'Ahora'}]. *)
Definition local_entry (h : jsstring * jsnum) : Entry.t :=
  {| Entry.accion := VStr str_escaneo;
     Entry.detalle := VStr (43%N :: num_toString (snd h) ++ lit " puntos por reciclaje");
     Entry.badge := 43%N :: num_toString (snd h);
     Entry.delta := snd h;
     Entry.fecha := str_Ahora |}.

(** The [data] that [renderHistory] displays:
    [this.serverHistory.length ? this.serverHistory
                               : this.myRecyclingHistory.map(...)]. *)
Definition renderHistory_data (st : App) : list Entry.t :=
  match serverHistory st with
  | [] => map local_entry (myRecyclingHistory st)
  | _ :: _ => serverHistory st
  end.


(** Sample items of [/premios] and a dated history entry. *)
Definition demo_premio : premio_item :=
  Premio (VStr (lit "Entrada cine")) (VNum (JInt 150)) (VNum (JInt 3)) VUndefined.

Definition demo_premio_unstocked : premio_item :=
  Premio (VStr (lit "Bono mercado")) (VNum (JInt 100)) VUndefined VUndefined.

Definition demo_reward_unstocked : Reward.t :=
  {| Reward.id := 1; Reward.name := VStr (lit "Bono mercado");
     Reward.points := VNum (JInt 100); Reward.stock := VNum (JInt 0);
     Reward.partner := VStr [] |}.


(** The gate tells the truth: the flag is up exactly while one invocation
    is suspended at its [await], and never more than one is. *)
Definition gate_consistent (w : world) : Prop :=
  (_fetchingPoints (app w) = true /\ suspended w = 1%nat)
  \/ (_fetchingPoints (app w) = false /\ suspended w = 0%nat).

(** Which replies make a read of [fetchPoints] fail: a request that is
    rejected, or a body that is not JSON. *)
Definition points_read_fails (r : points_reply) : bool :=
  match r with
  | PointsRejected => true
  | PointsFulfilled (Response None) _ => true
  | PointsFulfilled _ (Response None) => true
  | PointsFulfilled (Response (Some _)) (Response (Some _)) => false
  end.

(** Which replies make [loadHistoryFromBackend] fail: network, JSON
    parsing, or a body the mapping throws on. *)
Definition history_load_fails (r : history_reply) : bool :=
  match r with
  | HistoryRejected => true
  | HistoryFulfilled None => true
  | HistoryFulfilled (Some raw) =>
      match history_entries raw with
      | Normal _ => false
      | Throw _ => true
      end
  end.

(* ================================================================== *)
(** ** Properties *)
(* ================================================================== *)

(** *** The helpers on sample texts *)

Example escaneo_skips_unlabelled_number :
  parseDeltaFromDetalle (VStr (lit "escaneo")) (VStr (lit "+3 bonus, +12 PUNTOS extra"))
  = Normal (JInt 12).
Proof. reflexivity. Qed.

Example escaneo_without_plus :
  parseDeltaFromDetalle (VStr (lit "escaneo")) (VStr (lit "5 puntos")) = Normal (JInt 0).
Proof. reflexivity. Qed.

Example canje_unaccented_upper :
  parseDeltaFromDetalle (VStr (lit "canje")) (VStr (lit "GASTO   40pts")) = Normal (JInt (-40)).
Proof. reflexivity. Qed.

Example generic_sign_needs_digit :
  parseDeltaFromDetalle VUndefined (VStr (lit "a+-7b 9")) = Normal (JInt (-7)).
Proof. reflexivity. Qed.

Example non_string_detalle_throws :
  parseDeltaFromDetalle (VStr (lit "escaneo")) (VNum (JInt 5)) = Throw TypeError.
Proof. reflexivity. Qed.

Example string_to_number_samples :
  decimal_StringToNumber (lit " 42 ") = JInt 42
  /\ decimal_StringToNumber (lit "-7") = JInt (-7)
  /\ decimal_StringToNumber [] = JInt 0
  /\ decimal_StringToNumber (lit "abc") = JNaN.
Proof. repeat split; reflexivity. Qed.

Example toString_samples :
  int_toString 0 = lit "0" /\ int_toString 150 = lit "150"
  /\ int_toString (-150) = lit "-150".
Proof. repeat split; reflexivity. Qed.

Example parseInt10_samples :
  parseInt10 (lit "  42abc") = JInt 42
  /\ parseInt10 (lit "-0") = JInt 0
  /\ parseInt10 (lit "abc") = JNaN
  /\ parseInt10 (lit "9007199254740993") = JInt 9007199254740992
  /\ parseInt10 (lit "-9007199254740995") = JInt (-9007199254740996)
  /\ num_lt (parseInt10 (repeat 57%N 308)) (JInf false) = true
  /\ parseInt10 (repeat 57%N 309) = JInf false
  /\ parseInt10 (45%N :: repeat 57%N 309) = JInf true.
Proof. repeat split; vm_compute; reflexivity. Qed.

Example num_toString_samples :
  num_toString (JInt 0) = lit "0"
  /\ num_toString (JInt (-150)) = lit "-150"
  /\ num_toString (JInt 9007199254740992) = lit "9007199254740992"
  /\ num_toString (JInt (2 ^ 64)) = lit "18446744073709552000"
  /\ num_toString (JInt (10 ^ 21)) = lit "1e+21"
  /\ num_toString (JInt (- 2 ^ 70)) = lit "-1.1805916207174113e+21"
  /\ num_toString (JInt (2 ^ 1024 - 2 ^ 971)) = lit "1.7976931348623157e+308"
  /\ num_toString (JInf false) = lit "Infinity"
  /\ num_toString (JInf true) = lit "-Infinity"
  /\ num_toString JNaN = lit "NaN".
Proof. repeat split; vm_compute; reflexivity. Qed.

(** *** Decimal digits and the Number value of an integer *)

Lemma uint_units_digits d : forallb is_digit (uint_units d) = true.
Proof. induction d; cbn [uint_units forallb]; try rewrite IHd; reflexivity. Qed.

(** The decimal form of a negative integer starts with the minus sign;
    that of a non-negative one consists of digits. *)
Lemma int_toString_sign d :
  ((d < 0)%Z -> exists u, int_toString d = 45%N :: u)
  /\ ((0 <= d)%Z -> forallb is_digit (int_toString d) = true).
Proof.
  unfold int_toString. destruct d as [|q|q]; cbn [Z.to_int]; split; intros H;
    try lia; try (eexists; reflexivity); try apply uint_units_digits.
Qed.

Lemma two53_lt_pow1024 : (two53 < 2 ^ 1024)%Z.
Proof. vm_compute. reflexivity. Qed.

Lemma round53_safe z : (0 <= z <= two53)%Z -> round53 z = z.
Proof.
  intros H. unfold round53. destruct (Z.ltb_spec z two53) as [L|L]; [reflexivity|].
  assert (z = two53) as -> by lia. vm_compute. reflexivity.
Qed.

Lemma round53_nonneg z : (0 <= z)%Z -> (0 <= round53 z)%Z.
Proof.
  intros H. unfold round53. destruct (Z.ltb_spec z two53) as [L|L]; [exact H|].
  cbv zeta. apply Z.shiftl_nonneg.
  assert (Q : (0 <= Z.shiftr z (Z.log2 z - 52))%Z) by (apply Z.shiftr_nonneg; exact H).
  destruct (_ || _); lia.
Qed.


Lemma to_number_safe z : (Z.abs z <= two53)%Z -> to_number z = JInt z.
Proof.
  intros H. unfold to_number.
  rewrite (round53_safe (Z.abs z)) by (split; [apply Z.abs_nonneg | exact H]).
  pose proof two53_lt_pow1024.
  destruct (Z.leb_spec (2 ^ 1024) (Z.abs z)); [lia|].
  destruct (Z.ltb_spec z 0); f_equal; lia.
Qed.

Lemma to_number_opp z : to_number (- z) = num_neg (to_number z).
Proof.
  unfold to_number. rewrite Z.abs_opp.
  destruct (Z.eq_dec z 0) as [->|N]; [reflexivity|].
  destruct (Z.leb_spec (2 ^ 1024) (round53 (Z.abs z))); cbn [num_neg];
    destruct (Z.ltb_spec z 0), (Z.ltb_spec (- z) 0); try lia;
    try reflexivity; f_equal; lia.
Qed.

Lemma to_number_not_nan z : to_number z <> JNaN.
Proof. unfold to_number. destruct (_ <=? _)%Z; discriminate. Qed.



Lemma to_number_nonneg z : (0 <= z)%Z -> num_le (JInt 0) (to_number z) = true.
Proof.
  intros H. unfold to_number.
  destruct (Z.ltb_spec z 0); [lia|].
  destruct (_ <=? _)%Z; cbn [num_le]; [reflexivity|].
  apply Z.leb_le, round53_nonneg, Z.abs_nonneg.
Qed.

Lemma to_number_nonpos z : (z <= 0)%Z -> num_le (to_number z) (JInt 0) = true.
Proof.
  intros H. replace z with (- (- z))%Z by lia. rewrite to_number_opp.
  pose proof (to_number_nonneg (- z)) as P.
  destruct (to_number (- z)) as [v|[|]|]; cbn [num_neg num_le negb] in *;
    try reflexivity; try (specialize (P ltac:(lia)); discriminate).
  specialize (P ltac:(lia)). apply Z.leb_le in P. apply Z.leb_le. lia.
Qed.

(** Below 2^53 the text of a number is the decimal form of the integer. *)
Lemma num_toString_safe z :
  (Z.abs z < two53)%Z -> num_toString (JInt z) = int_toString z.
Proof.
  intros H. unfold num_toString, uint_toString.
  destruct (Z.ltb_spec z 0).
  - destruct (Z.ltb_spec (- z) two53); [|lia].
    destruct z as [|q|q]; try lia. reflexivity.
  - destruct (Z.ltb_spec z two53); [reflexivity | lia].
Qed.





(** *** The matcher on the three patterns *)




Lemma star_loop_class p k fuel : forall s c,
  (List.length s <= fuel)%nat ->
  star_loop (rmatch (RChar p)) k fuel s c = star_class p k s c.
Proof.
  induction fuel as [|fuel IH]; intros s c Hlen.
  - destruct s; [reflexivity | simpl in Hlen; lia].
  - destruct s as [|x s']; [reflexivity|].
    simpl. destruct (p x); [|reflexivity].
    replace (List.length s' <? S (List.length s'))%nat with true
      by (symmetry; apply Nat.ltb_lt; lia).
    rewrite IH by (simpl in Hlen; lia). reflexivity.
Qed.

Lemma rmatch_star p s c k :
  rmatch (RStar (RChar p)) s c k = star_class p k s c.
Proof. simpl. apply star_loop_class. lia. Qed.

Lemma rmatch_seq a b s c k :
  rmatch (RSeq a b) s c k = rmatch a s c (fun s1 c1 => rmatch b s1 c1 k).
Proof. reflexivity. Qed.

Lemma rmatch_char p s c k :
  rmatch (RChar p) s c k =
  match s with x :: s' => if p x then k s' c else None | [] => None end.
Proof. reflexivity. Qed.

Lemma rmatch_plus p s c k :
  rmatch (RPlus (RChar p)) s c k =
  match s with x :: s' => if p x then star_class p k s' c else None | [] => None end.
Proof.
  unfold RPlus. rewrite rmatch_seq, rmatch_char.
  destruct s as [|x s']; [reflexivity|].
  destruct (p x); [apply rmatch_star | reflexivity].
Qed.

Lemma star_class_blocked p k : blocked p k ->
  forall s c, star_class p k s c = k (drop_while p s) c.
Proof.
  intros Hb. induction s as [|x s IH]; intros c; [reflexivity|].
  simpl. destruct (p x) eqn:Hp; [|reflexivity].
  rewrite IH. destruct (k (drop_while p s) c) eqn:Hk; [reflexivity|].
  apply Hb, Hp.
Qed.

Lemma length_drop_while p s :
  (List.length (drop_while p s) <= List.length s)%nat.
Proof. induction s as [|x s IH]; simpl; [lia|]. destruct (p x); simpl; lia. Qed.

Lemma firstn_take_while p s :
  firstn (List.length s - List.length (drop_while p s)) s = take_while p s.
Proof.
  induction s as [|x s IH]; [reflexivity|].
  simpl drop_while. simpl take_while. destruct (p x).
  - pose proof (length_drop_while p s).
    replace (List.length (x :: s) - List.length (drop_while p s))%nat
      with (S (List.length s - List.length (drop_while p s)))
      by (change (List.length (x :: s)) with (S (List.length s)); lia).
    simpl. f_equal. exact IH.
  - rewrite Nat.sub_diag. reflexivity.
Qed.

(** A word of pattern letters matches exactly a prefix equal to it up to case. *)
Lemma rmatch_word_ci w : forall s c k,
  rmatch (word_ci w) s c k =
  if Spec.starts_with_ci w s then k (skipn (List.length w) s) c else None.
Proof.
  unfold word_ci. induction w as [|a w IH]; intros s c k; [reflexivity|].
  cbn [map RSeqs]. rewrite rmatch_seq. unfold ci at 1. rewrite rmatch_char.
  destruct s as [|x s]; [reflexivity|].
  cbn [Spec.starts_with_ci List.length skipn].
  destruct (N.eqb x a || N.eqb x (a - 32)); [apply IH | reflexivity].
Qed.

Lemma digit_cases x : is_digit x = true ->
  (x = 48 \/ x = 49 \/ x = 50 \/ x = 51 \/ x = 52 \/ x = 53 \/ x = 54 \/ x = 55
   \/ x = 56 \/ x = 57)%N.
Proof.
  unfold is_digit. intros H. apply andb_true_iff in H. destruct H as [H1 H2].
  apply N.leb_le in H1. apply N.leb_le in H2. lia.
Qed.

Lemma digit_not_space x : is_digit x = true -> is_space x = false.
Proof.
  intros H. apply digit_cases in H.
  repeat (destruct H as [H | H]); subst; reflexivity.
Qed.

Lemma space_not_digit x : is_space x = true -> is_digit x = false.
Proof.
  intros H. destruct (is_digit x) eqn:E; [|reflexivity].
  rewrite (digit_not_space _ E) in H. discriminate.
Qed.

(** The continuation "white space, then more" cannot start on a digit when
    what follows the white space cannot. *)
Lemma blocked_digit_star_space (r : regex) k :
  blocked is_digit (fun s c => rmatch r s c k) ->
  blocked is_digit (fun s c => rmatch (RSeq (RStar (RChar is_space)) r) s c k).
Proof.
  intros Hb x s c Hx. rewrite rmatch_seq, rmatch_star.
  cbn [star_class]. rewrite (digit_not_space _ Hx). apply Hb, Hx.
Qed.

Lemma blocked_word_ci (p : N -> bool) a w (r : regex) k :
  (forall x, p x = true -> N.eqb x a || N.eqb x (a - 32) = false) ->
  blocked p (fun s c => rmatch (RSeq (word_ci (a :: w)) r) s c k).
Proof.
  intros Hp x s c Hx. rewrite rmatch_seq, rmatch_word_ci.
  cbn [Spec.starts_with_ci]. rewrite (Hp _ Hx). reflexivity.
Qed.

Lemma digit_not_letter a x :
  (65 <= a - 32)%N -> is_digit x = true -> N.eqb x a || N.eqb x (a - 32) = false.
Proof.
  intros Ha H. apply digit_cases in H.
  apply orb_false_iff; split; apply N.eqb_neq; lia.
Qed.

Lemma space_not_letter a x :
  (65 <= a - 32)%N -> (a <= 122)%N -> is_space x = true ->
  N.eqb x a || N.eqb x (a - 32) = false.
Proof.
  intros Ha Hz H.
  destruct (N.eqb_spec x a) as [->|_];
    [|destruct (N.eqb_spec x (a - 32)) as [->|_]; [|reflexivity]].
  - exfalso. unfold is_space in H.
    repeat (apply orb_true_iff in H; destruct H as [H|H]);
      try (apply andb_true_iff in H; destruct H as [H1 H2];
           apply N.leb_le in H1; apply N.leb_le in H2; lia);
      try (apply N.eqb_eq in H; lia).
  - exfalso. unfold is_space in H.
    repeat (apply orb_true_iff in H; destruct H as [H|H]);
      try (apply andb_true_iff in H; destruct H as [H1 H2];
           apply N.leb_le in H1; apply N.leb_le in H2; lia);
      try (apply N.eqb_eq in H; lia).
Qed.




Lemma rmatch_group a s c k :
  rmatch (RGroup a) s c k =
  rmatch a s c (fun s1 _ => k s1 (Some (firstn (List.length s - List.length s1) s))).
Proof. reflexivity. Qed.

Lemma rmatch_opt_last p s c :
  rmatch (RSeq (ROpt (RChar p)) REmpty) s c (fun _ c1 => Some c1) = Some c.
Proof.
  rewrite rmatch_seq. cbn [rmatch]. destruct s as [|x s]; [reflexivity|].
  destruct (p x); reflexivity.
Qed.

Lemma starts_with_ci_app w v : forall s,
  Spec.starts_with_ci (w ++ v) s = true -> Spec.starts_with_ci w s = true.
Proof.
  induction w as [|a w IH]; intros s H; [reflexivity|].
  destruct s as [|x s]; [discriminate|]. cbn [app Spec.starts_with_ci] in *.
  apply andb_true_iff in H. destruct H as [H1 H2].
  rewrite H1. apply IH, H2.
Qed.

Lemma puntos_or_punto s :
  Spec.starts_with_ci (lit "puntos") s || Spec.starts_with_ci (lit "punto") s
  = Spec.starts_with_ci (lit "punto") s.
Proof.
  destruct (Spec.starts_with_ci (lit "puntos") s) eqn:E; [|reflexivity].
  symmetry. apply (starts_with_ci_app (lit "punto") (lit "s")). exact E.
Qed.

Lemma drop_while_head p x s : p x = true -> drop_while p (x :: s) = drop_while p s.
Proof. intros H. simpl. rewrite H. reflexivity. Qed.

Lemma earn_tail_ok s c :
  rmatch earn_tail s c (fun _ c1 => Some c1) =
  if Spec.starts_with_ci (lit "punto") (drop_while is_space s) then Some c else None.
Proof.
  unfold earn_tail. cbn [RSeqs]. rewrite rmatch_seq, rmatch_star.
  rewrite star_class_blocked.
  - rewrite rmatch_seq, rmatch_word_ci.
    destruct (Spec.starts_with_ci (lit "punto") (drop_while is_space s)); [|reflexivity].
    apply rmatch_opt_last.
  - apply (blocked_word_ci is_space 112 (lit "unto")).
    intros y Hy. apply space_not_letter; [lia | lia | exact Hy].
Qed.

Lemma earn_tail_blocked : blocked is_digit (fun s c => rmatch earn_tail s c (fun _ c1 => Some c1)).
Proof.
  unfold earn_tail. cbn [RSeqs]. apply blocked_digit_star_space.
  apply (blocked_word_ci is_digit 112 (lit "unto")).
  intros y Hy. apply digit_not_letter; [lia | exact Hy].
Qed.

Lemma escaneo_here s :
  match_here re_escaneo s =
  match Spec.earn_here s with
  | Some _ => Some (Some (take_while is_digit (tl s)))
  | None => None
  end.
Proof.
  unfold match_here, re_escaneo.
  change (RSeqs [chr 43; RGroup (RPlus (RChar is_digit)); RStar (RChar is_space);
                 word_ci (lit "punto"); ROpt (ci 115)])
    with (RSeq (chr 43) (RSeq (RGroup (RPlus (RChar is_digit))) earn_tail)).
  rewrite rmatch_seq. unfold chr. rewrite rmatch_char.
  destruct s as [|x r]; [reflexivity|].
  destruct (N.eqb_spec x 43) as [->|Hx].
  2:{ unfold Spec.earn_here. destruct x as [|p]; [reflexivity|].
      repeat (destruct p as [p|p|]; try reflexivity); congruence. }
  rewrite rmatch_seq, rmatch_group, rmatch_plus.
  unfold Spec.earn_here. cbn [tl].
  destruct r as [|y r']; [reflexivity|].
  destruct (is_digit y) eqn:Hy.
  - rewrite star_class_blocked.
    2:{ intros z t c Hz. apply earn_tail_blocked, Hz. }
    rewrite <- (drop_while_head is_digit y r' Hy).
    rewrite firstn_take_while, earn_tail_ok, puntos_or_punto.
    cbn [take_while]. rewrite Hy. cbn [Spec.nonempty andb].
    destruct (Spec.starts_with_ci _ _); reflexivity.
  - cbn [take_while]. rewrite Hy. reflexivity.
Qed.


Lemma star_class_always p k : always k ->
  forall s c, star_class p k s c = k (drop_while p s) c.
Proof.
  intros Hk. induction s as [|x s IH]; intros c; [reflexivity|].
  simpl. destruct (p x); [|reflexivity].
  rewrite IH. destruct (k (drop_while p s) c) eqn:E; [reflexivity|].
  exfalso. exact (Hk _ _ E).
Qed.

Lemma forallb_take_while p s : forallb p (take_while p s) = true.
Proof.
  induction s as [|x s IH]; [reflexivity|]. simpl.
  destruct (p x) eqn:E; [|reflexivity]. simpl. rewrite E. exact IH.
Qed.

Lemma take_while_all p s : forallb p s = true -> take_while p s = s.
Proof.
  induction s as [|x s IH]; [reflexivity|]. simpl. intros H.
  apply andb_true_iff in H. destruct H as [H1 H2]. rewrite H1, IH; auto.
Qed.

Lemma parseInt10_digits x ds :
  forallb is_digit (x :: ds) = true ->
  parseInt10 (x :: ds) = to_number (digits_val (x :: ds)).
Proof.
  intros H. pose proof (take_while_all _ _ H) as Ht.
  cbn [forallb] in H. apply andb_true_iff in H. destruct H as [Hx _].
  unfold parseInt10. cbn [drop_while]. rewrite (digit_not_space _ Hx).
  apply digit_cases in Hx.
  repeat (destruct Hx as [Hx | Hx]); subst; cbv iota;
    unfold digits_or_nan; rewrite Ht; reflexivity.
Qed.

Lemma parseInt10_signed (sg : N) x ds :
  (sg = 43 \/ sg = 45)%N -> forallb is_digit (x :: ds) = true ->
  parseInt10 (sg :: x :: ds)
  = to_number (if N.eqb sg 45 then - digits_val (x :: ds) else digits_val (x :: ds)).
Proof.
  intros Hs H. pose proof (take_while_all _ _ H) as Ht.
  destruct Hs as [-> | ->]; unfold parseInt10; cbn [drop_while];
    [change (is_space 43) with false | change (is_space 45) with false];
    cbv iota; unfold digits_or_nan; rewrite Ht; cbn [N.eqb Pos.eqb];
    [reflexivity | symmetry; apply to_number_opp].
Qed.

Lemma exec_agree r f g : agree_here r f g ->
  forall s,
    match exec r s with
    | Some m => exists v, Spec.first_match f s = Some v /\ group1_int (Some m) = to_number (g v)
    | None => Spec.first_match f s = None
    end.
Proof.
  intros H. induction s as [|x s IH].
  - specialize (H []). cbn [exec Spec.first_match].
    destruct (match_here r []) as [m|].
    + destruct H as [v [Hf Hv]]. exists v. rewrite Hf. auto.
    + rewrite H. reflexivity.
  - specialize (H (x :: s)). cbn [exec Spec.first_match].
    destruct (match_here r (x :: s)) as [m|].
    + destruct H as [v [Hf Hv]]. exists v. rewrite Hf. auto.
    + rewrite H. exact IH.
Qed.

Lemma take_while_digit_cons y r :
  is_digit y = true -> take_while is_digit (y :: r) = y :: take_while is_digit r.
Proof. intros H. simpl. rewrite H. reflexivity. Qed.

Lemma escaneo_agree : agree_here re_escaneo Spec.earn_here (fun v => v).
Proof.
  intros s. rewrite escaneo_here.
  destruct (Spec.earn_here s) as [v|] eqn:E; [|reflexivity].
  exists v. split; [reflexivity|].
  unfold Spec.earn_here in E.
  destruct s as [|x r]; [discriminate|].
  destruct x as [|p]; [discriminate|].
  do 6 (destruct p as [p|p|]; try discriminate).
  cbn [tl].
  destruct (take_while is_digit r) as [|y ds] eqn:Et; [discriminate|].
  cbn [Spec.nonempty andb] in E.
  destruct (_ || _); [|discriminate]. injection E as <-.
  unfold group1_int. apply parseInt10_digits.
  rewrite <- Et. apply forallb_take_while.
Qed.


Lemma rmatch_word_ci_last w s c :
  rmatch (RSeq (word_ci w) REmpty) s c (fun _ c1 => Some c1) =
  if Spec.starts_with_ci w s then Some c else None.
Proof. rewrite rmatch_seq, rmatch_word_ci. reflexivity. Qed.

Lemma redeem_tail_ok s c :
  rmatch redeem_tail s c (fun _ c1 => Some c1) =
  if Spec.starts_with_ci (lit "pts") (drop_while is_space s) then Some c else None.
Proof.
  unfold redeem_tail. cbn [RSeqs]. rewrite rmatch_seq, rmatch_star.
  rewrite star_class_blocked.
  - apply rmatch_word_ci_last.
  - apply (blocked_word_ci is_space 112 (lit "ts")).
    intros y Hy. apply space_not_letter; [lia | lia | exact Hy].
Qed.

Lemma redeem_tail_blocked :
  blocked is_digit (fun s c => rmatch redeem_tail s c (fun _ c1 => Some c1)).
Proof.
  unfold redeem_tail. cbn [RSeqs]. apply blocked_digit_star_space.
  apply (blocked_word_ci is_digit 112 (lit "ts")).
  intros y Hy. apply digit_not_letter; [lia | exact Hy].
Qed.

Lemma firstn_cons_take_while x r :
  firstn (List.length (x :: r) - List.length (drop_while is_digit r)) (x :: r)
  = x :: take_while is_digit r.
Proof.
  pose proof (length_drop_while is_digit r).
  replace (List.length (x :: r) - List.length (drop_while is_digit r))%nat
    with (S (List.length r - List.length (drop_while is_digit r)))
    by (change (List.length (x :: r)) with (S (List.length r)); lia).
  cbn [firstn]. f_equal. apply firstn_take_while.
Qed.

(** [(\d+)\s*pts]: the digits are captured whole. *)
Lemma redeem_digits_ok s c :
  rmatch (RSeq (RGroup (RPlus (RChar is_digit))) redeem_tail) s c (fun _ c1 => Some c1) =
  if Spec.nonempty (take_while is_digit s)
     && Spec.starts_with_ci (lit "pts") (drop_while is_space (drop_while is_digit s))
  then Some (Some (take_while is_digit s)) else None.
Proof.
  rewrite rmatch_seq, rmatch_group, rmatch_plus.
  destruct s as [|y r]; [reflexivity|].
  cbn [take_while drop_while]. destruct (is_digit y) eqn:Hy; [|reflexivity].
  rewrite star_class_blocked.
  2:{ intros z t c0 Hz. apply redeem_tail_blocked, Hz. }
  rewrite firstn_cons_take_while, redeem_tail_ok.
  reflexivity.
Qed.

Lemma redeem_digits_blocked :
  blocked is_space
    (fun s c => rmatch (RSeq (RGroup (RPlus (RChar is_digit))) redeem_tail) s c
                  (fun _ c1 => Some c1)).
Proof.
  intros x s c Hx. rewrite rmatch_seq, rmatch_group, rmatch_plus.
  rewrite (space_not_digit _ Hx). reflexivity.
Qed.

Lemma canje_here s :
  match_here re_canje s =
  match Spec.redeem_here s with
  | Some _ => Some (Some (take_while is_digit (drop_while is_space (tl (skipn 4 s)))))
  | None => None
  end.
Proof.
  unfold match_here, re_canje.
  change (RSeqs [word_ci (lit "gast"); RChar o_class; RPlus (RChar is_space);
                 RGroup (RPlus (RChar is_digit)); RStar (RChar is_space);
                 word_ci (lit "pts")])
    with (RSeq (word_ci (lit "gast"))
            (RSeq (RChar o_class)
               (RSeq (RPlus (RChar is_space))
                  (RSeq (RGroup (RPlus (RChar is_digit))) redeem_tail)))).
  rewrite rmatch_seq, rmatch_word_ci. unfold Spec.redeem_here.
  destruct (Spec.starts_with_ci (lit "gast") s); [|reflexivity].
  change (List.length (lit "gast")) with 4%nat.
  rewrite rmatch_seq, rmatch_char.
  destruct (skipn 4 s) as [|o r]; [reflexivity|].
  change (Spec.is_o o) with (o_class o).
  destruct (o_class o); [|reflexivity].
  rewrite rmatch_seq, rmatch_plus. cbn [tl andb].
  destruct r as [|sp r']; [reflexivity|].
  cbn [take_while drop_while].
  destruct (is_space sp) eqn:Hsp; [|reflexivity].
  rewrite star_class_blocked.
  2:{ intros z t c0 Hz. apply redeem_digits_blocked, Hz. }
  rewrite redeem_digits_ok. cbn [Spec.nonempty andb].
  destruct (_ && _); reflexivity.
Qed.

Lemma canje_agree : agree_here re_canje Spec.redeem_here Z.opp.
Proof.
  intros s. rewrite canje_here. unfold Spec.redeem_here.
  destruct (Spec.starts_with_ci (lit "gast") s); [|reflexivity].
  destruct (skipn 4 s) as [|o r]; [reflexivity|]. cbn [tl].
  destruct (take_while is_digit (drop_while is_space r)) as [|y ds] eqn:Et.
  - rewrite andb_false_r. reflexivity.
  - destruct (_ && _); [|reflexivity].
    eexists. split; [reflexivity|].
    rewrite Z.opp_involutive. unfold group1_int. apply parseInt10_digits.
    rewrite <- Et. apply forallb_take_while.
Qed.

Lemma sign_not_digit x : sign_class x = true -> is_digit x = false.
Proof.
  unfold sign_class. intros H. apply orb_true_iff in H.
  destruct H as [H|H]; apply N.eqb_eq in H; subst; reflexivity.
Qed.

Lemma generic_here s :
  match_here re_generic s =
  match s with
  | [] => None
  | x :: r =>
      if is_digit x then Some (Some (take_while is_digit s))
      else if sign_class x && Spec.nonempty (take_while is_digit r)
      then Some (Some (x :: take_while is_digit r))
      else None
  end.
Proof.
  unfold match_here, re_generic. rewrite rmatch_group, rmatch_seq.
  cbn [rmatch]. fold (rmatch (RPlus (RChar is_digit))).
  destruct s as [|x r]; [reflexivity|].
  fold (sign_class x).
  destruct (sign_class x) eqn:Hs.
  - rewrite (sign_not_digit _ Hs). rewrite !rmatch_plus.
    rewrite (sign_not_digit _ Hs). cbn [andb].
    destruct r as [|y r']; [reflexivity|].
    cbn [take_while]. destruct (is_digit y) eqn:Hy; [|reflexivity].
    rewrite star_class_always by (intros t c0; discriminate).
    rewrite <- (drop_while_head is_digit y r' Hy).
    rewrite (firstn_cons_take_while x (y :: r')).
    rewrite (take_while_digit_cons y r' Hy). reflexivity.
  - rewrite rmatch_plus. cbn [andb].
    destruct (is_digit x) eqn:Hx; [|reflexivity].
    rewrite star_class_always by (intros t c0; discriminate).
    rewrite <- (drop_while_head is_digit x r Hx).
    rewrite firstn_take_while. reflexivity.
Qed.

Lemma generic_agree : agree_here re_generic Spec.literal_here (fun v => v).
Proof.
  intros s. rewrite generic_here. unfold Spec.literal_here.
  destruct s as [|x r]; [reflexivity|].
  destruct (is_digit x) eqn:Hx.
  - eexists. split; [reflexivity|].
    rewrite (take_while_digit_cons x r Hx). unfold group1_int.
    apply parseInt10_digits. rewrite <- (take_while_digit_cons x r Hx).
    apply forallb_take_while.
  - fold (sign_class x). destruct (sign_class x) eqn:Hs; [|reflexivity].
    cbn [andb].
    destruct (take_while is_digit r) as [|y ds] eqn:Et; [reflexivity|].
    cbn [Spec.nonempty]. eexists. split; [reflexivity|].
    unfold group1_int. apply parseInt10_signed.
    + unfold sign_class in Hs. apply orb_true_iff in Hs.
      destruct Hs as [H|H]; apply N.eqb_eq in H; auto.
    + rewrite <- Et. apply forallb_take_while.
Qed.

(** The code computes the Number value of the integer that the wording
    describes, on every string. *)
Lemma parseDelta_agrees accion d :
  parseDeltaFromDetalle accion (VStr d)
  = Normal (to_number (Spec.delta (Spec.kind_of accion) d)).
Proof.
  unfold parseDeltaFromDetalle, Spec.kind_of, Spec.delta.
  change (JInt 0) with (to_number 0).
  destruct d as [|x d]; cbn [truthy negb].
  - destruct (strict_eq_str accion str_escaneo); [reflexivity|].
    destruct (strict_eq_str accion str_canje); reflexivity.
  - destruct (strict_eq_str accion str_escaneo).
    + pose proof (exec_agree _ _ _ escaneo_agree (x :: d)) as H.
      destruct (exec re_escaneo (x :: d)) as [m|].
      * destruct H as [v [-> ->]]. reflexivity.
      * rewrite H. reflexivity.
    + destruct (strict_eq_str accion str_canje).
      * pose proof (exec_agree _ _ _ canje_agree (x :: d)) as H.
        destruct (exec re_canje (x :: d)) as [m|].
        -- destruct H as [v [-> ->]]. cbn [Spec.or_zero].
           rewrite <- to_number_opp, Z.opp_involutive. reflexivity.
        -- rewrite H. reflexivity.
      * pose proof (exec_agree _ _ _ generic_agree (x :: d)) as H.
        destruct (exec re_generic (x :: d)) as [m|].
        -- destruct H as [v [-> ->]]. reflexivity.
        -- rewrite H. reflexivity.
Qed.

(** When that integer is at most 2^53 in magnitude, the result is the
    integer itself. *)
Lemma parseDelta_safe accion d :
  (Z.abs (Spec.delta (Spec.kind_of accion) d) <= two53)%Z ->
  parseDeltaFromDetalle accion (VStr d)
  = Normal (JInt (Spec.delta (Spec.kind_of accion) d)).
Proof. intros H. rewrite parseDelta_agrees, (to_number_safe _ H). reflexivity. Qed.


(** C3 (amended). Delta parsing: on every action tag and every detail
    text, [parseDeltaFromDetalle] returns the Number value of the integer
    that the specification describes -- the first [+digits] followed by
    puntos/punto for "escaneo", minus the digits of "gasto/gastó digits
    pts" for "canje", the first signed integer literal otherwise, and 0
    when nothing is found or the text is absent.  That is the integer
    itself whenever its magnitude is at most 2^53, and the nearest double
    (an infinity from 2^1024 on) beyond; the four literal cases of the
    specification hold. *)
Theorem delta_parsing :
  (forall accion d,
      parseDeltaFromDetalle accion (VStr d)
      = Normal (to_number (Spec.delta (Spec.kind_of accion) d)))
  /\ (forall accion d,
         (Z.abs (Spec.delta (Spec.kind_of accion) d) <= 9007199254740992)%Z ->
         parseDeltaFromDetalle accion (VStr d)
         = Normal (JInt (Spec.delta (Spec.kind_of accion) d)))
  /\ (forall accion, parseDeltaFromDetalle accion VUndefined = Normal (JInt 0))
  /\ (forall accion, parseDeltaFromDetalle accion VNull = Normal (JInt 0))
  /\ parseDeltaFromDetalle (VStr (lit "escaneo")) (VStr (lit "+5 puntos por reciclaje"))
     = Normal (JInt 5)
  /\ parseDeltaFromDetalle (VStr (lit "canje"))
       (VStr (lit "Gast" ++ [o_acute] ++ lit " 150 pts por: Entrada cine"))
     = Normal (JInt (-150))
  /\ parseDeltaFromDetalle (VStr (lit "otro")) (VStr (lit "ajuste -20"))
     = Normal (JInt (-20))
  /\ parseDeltaFromDetalle (VStr (lit "escaneo")) (VStr []) = Normal (JInt 0).
Proof.
  split; [exact parseDelta_agrees|].
  split; [exact parseDelta_safe|].
  repeat split; reflexivity.
Qed.

(** *** fetchPoints *)

Lemma or0_id x : or0 x = x.
Proof. unfold or0. destruct (Z.eqb_spec x 0); congruence. Qed.

(** A failed read: nothing but the gate changes, the error is logged. *)
Lemma fetchPoints_resume_fail r st :
  points_read_fails r = true ->
  exists e, fetchPoints_resume r st
            = (set_fetchingPoints false st, [ConsoleError e], Normal tt).
Proof.
  destruct r as [|[[b1|]] [[b2|]]]; cbn [points_read_fails]; intros H;
    try discriminate; eexists; reflexivity.
Qed.

(** Both bodies parsed: the two fields are assigned, then the display. *)
Lemma fetchPoints_resume_ok saldo total st :
  let s := ToNumber (nullish (opt_prop saldo str_puntos) (VNum (JInt 0))) in
  let t := ToNumber (nullish (opt_prop total str_puntos_acumulados) (VNum (JInt 0))) in
  fetchPoints_resume (PointsFulfilled (Response (Some saldo)) (Response (Some total))) st
  = (set_fetchingPoints false (set_userPointsTotal t (set_userPoints s st)),
     UpdatePointsDisplay s t
       :: (if str_eqb (activeTab st) str_rewards then [RenderRewards] else []),
     Normal tt).
Proof.
  cbv zeta. destruct st as [tab up upt f l mine hist rw].
  unfold fetchPoints_resume. generalize str_rewards. intros rw_tab.
  unfold finally, try_catch, bindM, await_all, res_json, ret, modify,
    updatePointsDisplay, get, emit, renderRewards.
  cbn. destruct (str_eqb tab rw_tab); reflexivity.
Qed.

Lemma fetchPoints_resume_gate r st :
  _fetchingPoints (fst (fst (fetchPoints_resume r st))) = false
  /\ _lastPointsFetch (fst (fst (fetchPoints_resume r st))) = _lastPointsFetch st
  /\ snd (fetchPoints_resume r st) = Normal tt.
Proof.
  destruct (points_read_fails r) eqn:F.
  - destruct (fetchPoints_resume_fail r st F) as [e ->]. auto.
  - destruct r as [|[[b1|]] [[b2|]]]; try discriminate.
    rewrite fetchPoints_resume_ok. auto.
Qed.

(** An early return changes nothing and emits nothing. *)
Lemma fetchPoints_begin_returned now correo st st' es :
  fetchPoints_begin now correo st = (st', es, Returned) -> st' = st /\ es = [].
Proof.
  unfold fetchPoints_begin.
  destruct (_fetchingPoints st); [intros [= <- <-]; auto|].
  destruct (now - or0 (_lastPointsFetch st) <? 8000)%Z; [intros [= <- <-]; auto|].
  destruct correo as [[|x c]|]; intros [= <- <-]; auto.
Qed.

(** Passing the gate: both checks passed, the flags are set in the state
    that accompanies the two requests. *)
Lemma fetchPoints_begin_awaiting now correo st st' es :
  fetchPoints_begin now correo st = (st', es, Awaiting) ->
  _fetchingPoints st = false
  /\ (8000 <= now - _lastPointsFetch st)%Z
  /\ st' = set_lastPointsFetch now (set_fetchingPoints true st)
  /\ exists c, correo = Some c /\ no_correo correo = false
               /\ es = [Fetch (GetPuntos c); Fetch (GetPuntosAcumulados c)].
Proof.
  unfold fetchPoints_begin. rewrite or0_id.
  destruct (_fetchingPoints st); [discriminate|].
  destruct (Z.ltb_spec (now - _lastPointsFetch st) 8000); [discriminate|].
  destruct correo as [[|x c]|]; try discriminate.
  intros [= <- <-]. repeat split; auto. exists (x :: c). auto.
Qed.

(** **** The throttle along a run *)

Lemma trace_cons w e evs :
  trace w (e :: evs) = snd (step w e) :: trace (fst (step w e)) evs.
Proof. cbn [trace]. destruct (step w e); reflexivity. Qed.

(** The time of the last started fetch never goes back. *)
Lemma step_last_mono w e :
  (_lastPointsFetch (app w) <= _lastPointsFetch (app (fst (step w e))))%Z.
Proof.
  destruct e as [now correo | r]; cbn [step].
  - destruct (fetchPoints_begin now correo (app w)) as [[st es] c] eqn:E.
    cbn [fst app]. destruct c.
    + apply fetchPoints_begin_returned in E. destruct E as [-> _]. lia.
    + apply fetchPoints_begin_awaiting in E. destruct E as [_ [H [-> _]]].
      cbn. lia.
  - destruct (suspended w) as [|n]; [cbn; lia|].
    destruct (fetchPoints_resume_gate r (app w)) as [_ [H _]].
    destruct (fetchPoints_resume r (app w)) as [[st es] c].
    cbn [fst app] in *. lia.
Qed.

(** An invocation that sends requests starts at least 8000 ms after the
    last started fetch, and becomes the last started fetch. *)
Lemma call_dispatch w now correo :
  issues_request (snd (step w (CallFetchPoints now correo))) = true ->
  (_lastPointsFetch (app w) + 8000 <= now)%Z
  /\ _lastPointsFetch (app (fst (step w (CallFetchPoints now correo)))) = now.
Proof.
  cbn [step].
  destruct (fetchPoints_begin now correo (app w)) as [[st es] c] eqn:E.
  cbn [fst snd app]. destruct c.
  - apply fetchPoints_begin_returned in E. destruct E as [_ ->]. discriminate.
  - apply fetchPoints_begin_awaiting in E. destruct E as [_ [H [-> _]]].
    intros _. split; [lia | reflexivity].
Qed.

Lemma dispatch_after evs : forall w j tj cj es,
  nth_error evs j = Some (CallFetchPoints tj cj) ->
  nth_error (trace w evs) j = Some es ->
  issues_request es = true ->
  (_lastPointsFetch (app w) + 8000 <= tj)%Z.
Proof.
  induction evs as [|e evs IH]; intros w j tj cj es Hj Ht Hd.
  - destruct j; discriminate.
  - rewrite trace_cons in Ht. destruct j as [|j]; cbn [nth_error] in Hj, Ht.
    + injection Hj as ->. injection Ht as <-.
      apply call_dispatch in Hd. lia.
    + pose proof (step_last_mono w e).
      specialize (IH _ _ _ _ _ Hj Ht Hd). lia.
Qed.

Lemma dispatch_ordered evs : forall w i j ti ci tj cj esi esj,
  (i < j)%nat ->
  nth_error evs i = Some (CallFetchPoints ti ci) ->
  nth_error evs j = Some (CallFetchPoints tj cj) ->
  nth_error (trace w evs) i = Some esi ->
  nth_error (trace w evs) j = Some esj ->
  issues_request esi = true -> issues_request esj = true ->
  (ti + 8000 <= tj)%Z.
Proof.
  induction evs as [|e evs IH]; intros w i j ti ci tj cj esi esj Hij Hi Hj Hti Htj Hdi Hdj.
  - destruct i; discriminate.
  - rewrite trace_cons in Hti, Htj.
    destruct j as [|j]; [lia|]. cbn [nth_error] in Hj, Htj.
    destruct i as [|i]; cbn [nth_error] in Hi, Hti.
    + injection Hi as ->. injection Hti as <-.
      apply call_dispatch in Hdi. destruct Hdi as [_ Hlast].
      pose proof (dispatch_after evs _ _ _ _ _ Hj Htj Hdj) as H.
      rewrite Hlast in H. exact H.
    + apply (IH (fst (step w e)) i j ti ci tj cj esi esj); auto. lia.
Qed.

(** C1. Throttle exclusivity: of two invocations of [fetchPoints] on the
    same object whose start times are less than 8000 ms apart, at most
    one sends the pair of read requests, whatever else happens to the
    gate in between; an invocation made while a fetch is in flight or
    within 8000 ms of the last started fetch returns without a request
    and without touching the object; and an invocation that does send the
    requests has set both gate fields by the time they are issued. *)
Theorem throttle_exclusivity :
  (forall w evs i j ti ci tj cj esi esj,
      i <> j ->
      nth_error evs i = Some (CallFetchPoints ti ci) ->
      nth_error evs j = Some (CallFetchPoints tj cj) ->
      nth_error (trace w evs) i = Some esi ->
      nth_error (trace w evs) j = Some esj ->
      (Z.abs (ti - tj) < 8000)%Z ->
      issues_request esi = false \/ issues_request esj = false)
  /\ (forall now correo st,
         _fetchingPoints st = true \/ (now - or0 (_lastPointsFetch st) < 8000)%Z ->
         fetchPoints_begin now correo st = (st, [], Returned))
  /\ (forall now correo st st' es,
         fetchPoints_begin now correo st = (st', es, Awaiting) ->
         _fetchingPoints st' = true /\ _lastPointsFetch st' = now
         /\ exists c, es = [Fetch (GetPuntos c); Fetch (GetPuntosAcumulados c)]).
Proof.
  split; [|split].
  - intros w evs i j ti ci tj cj esi esj Hne Hi Hj Hti Htj Habs.
    destruct (issues_request esi) eqn:Di; [|auto].
    destruct (issues_request esj) eqn:Dj; [|auto].
    exfalso.
    destruct (Nat.lt_total i j) as [Hlt | [Heq | Hgt]]; [|contradiction|].
    + pose proof (dispatch_ordered evs w _ _ _ _ _ _ _ _ Hlt Hi Hj Hti Htj Di Dj). lia.
    + pose proof (dispatch_ordered evs w _ _ _ _ _ _ _ _ Hgt Hj Hi Htj Hti Dj Di). lia.
  - intros now correo st [H | H]; unfold fetchPoints_begin.
    + rewrite H. reflexivity.
    + destruct (_fetchingPoints st); [reflexivity|].
      apply Z.ltb_lt in H. rewrite H. reflexivity.
  - intros now correo st st' es E.
    apply fetchPoints_begin_awaiting in E.
    destruct E as [_ [_ [-> [c [_ [_ ->]]]]]]. eauto.
Qed.

(** C2 (code at the failing input). A balance read that the backend
    answers with an HTTP error -- a JSON object with an [error] string --
    is parsed like any other body: the object has no [puntos], so
    [userPoints] becomes 0 whatever it was; nothing is thrown, nothing is
    logged (the effects are the display update and, on the rewards tab,
    the rendering), and the total is stored from the other response.  The
    same happens to [userPointsTotal] when the total read is answered so,
    and when both reads are, both fields become 0. *)
Theorem http_error_overwrites_balance :
  forall msg msg2 saldo total st,
    userPoints
      (fst (fst (fetchPoints_resume
                   (PointsFulfilled (error_response msg) (Response (Some total))) st)))
    = JInt 0
    /\ snd (fetchPoints_resume
              (PointsFulfilled (error_response msg) (Response (Some total))) st)
       = Normal tt
    /\ snd (fst (fetchPoints_resume
                   (PointsFulfilled (error_response msg) (Response (Some total))) st))
       = UpdatePointsDisplay
           (JInt 0)
           (ToNumber (nullish (opt_prop total str_puntos_acumulados) (VNum (JInt 0))))
         :: (if str_eqb (activeTab st) str_rewards then [RenderRewards] else [])
    /\ userPoints
         (fst (fst (fetchPoints_resume
                      (PointsFulfilled (error_response msg) (error_response msg2)) st)))
       = JInt 0
    /\ userPointsTotal
         (fst (fst (fetchPoints_resume
                      (PointsFulfilled (error_response msg) (error_response msg2)) st)))
       = JInt 0
    /\ userPointsTotal
         (fst (fst (fetchPoints_resume
                      (PointsFulfilled (Response (Some saldo)) (error_response msg2)) st)))
       = JInt 0.
Proof.
  intros msg msg2 saldo total st. unfold error_response.
  rewrite !fetchPoints_resume_ok. cbn [fst snd].
  destruct st as [tab up upt f l mine hist rw]. repeat split.
Qed.

(** Keep-last-known-good on the failures that reach the [catch]: when the
    pair of requests of [fetchPoints] is rejected or a body is not JSON,
    the balance and the cumulative total are what they were and nothing is
    thrown to the caller (the error is logged); when
    [loadHistoryFromBackend] fails -- request rejected, body not JSON, or
    a body that cannot be mapped, such as the error object of an HTTP
    error -- the history held before is left as it was and nothing is
    thrown. *)
Theorem keep_last_known_good :
  (forall r st,
      points_read_fails r = true ->
      userPoints (fst (fst (fetchPoints_resume r st))) = userPoints st
      /\ userPointsTotal (fst (fst (fetchPoints_resume r st))) = userPointsTotal st
      /\ exists e, fetchPoints_resume r st
                   = (set_fetchingPoints false st, [ConsoleError e], Normal tt))
  /\ (forall r st,
         history_load_fails r = true ->
         serverHistory (fst (fst (loadHistory_resume r st))) = serverHistory st
         /\ exists e, loadHistory_resume r st = (st, [ConsoleError e], Normal tt)).
Proof.
  split.
  - intros r st F. destruct (fetchPoints_resume_fail r st F) as [e E].
    rewrite E. cbn. eauto.
  - intros r st F. destruct r as [|[raw|]]; cbn [history_load_fails] in F.
    + cbn. eauto.
    + unfold loadHistory_resume, try_catch, bindM, await_history, ret, lift.
      destruct (history_entries raw) as [l|e]; [discriminate|]. cbn. eauto.
    + cbn. eauto.
Qed.

(** C6 (amended). Coercion of malformed balance responses: in every
    successful [fetchPoints] the operation does not fail, a response whose
    expected field is missing or null (or whose body is null or not an
    object) sets the corresponding local field to 0, and a field that
    holds a number is stored as it is. *)
Theorem coercion_of_missing_fields :
  forall saldo total st,
    snd (fetchPoints_resume
           (PointsFulfilled (Response (Some saldo)) (Response (Some total))) st)
    = Normal tt
    /\ (forall e,
           ~ In (ConsoleError e)
                (snd (fst (fetchPoints_resume
                             (PointsFulfilled (Response (Some saldo))
                                              (Response (Some total))) st))))
    /\ (opt_prop saldo str_puntos = VUndefined \/ opt_prop saldo str_puntos = VNull ->
        userPoints
          (fst (fst (fetchPoints_resume
                       (PointsFulfilled (Response (Some saldo))
                                        (Response (Some total))) st)))
        = JInt 0)
    /\ (opt_prop total str_puntos_acumulados = VUndefined
        \/ opt_prop total str_puntos_acumulados = VNull ->
        userPointsTotal
          (fst (fst (fetchPoints_resume
                       (PointsFulfilled (Response (Some saldo))
                                        (Response (Some total))) st)))
        = JInt 0)
    /\ (forall n,
           opt_prop saldo str_puntos = VNum n ->
           userPoints
             (fst (fst (fetchPoints_resume
                          (PointsFulfilled (Response (Some saldo))
                                           (Response (Some total))) st)))
           = n)
    /\ (forall n,
           opt_prop total str_puntos_acumulados = VNum n ->
           userPointsTotal
             (fst (fst (fetchPoints_resume
                          (PointsFulfilled (Response (Some saldo))
                                           (Response (Some total))) st)))
           = n).
Proof.
  intros saldo total st. rewrite fetchPoints_resume_ok.
  cbn [fst snd]. repeat split.
  - intros e [H | H]; [discriminate|].
    destruct (str_eqb (activeTab st) str_rewards); cbn in H.
    + destruct H as [H | []]. discriminate.
    + exact H.
  - intros [H | H]; rewrite H; reflexivity.
  - intros [H | H]; rewrite H; reflexivity.
  - intros n H. rewrite H. reflexivity.
  - intros n H. rewrite H. reflexivity.
Qed.

Lemma step_gate_consistent w e : gate_consistent w -> gate_consistent (fst (step w e)).
Proof.
  unfold gate_consistent. intros G. destruct e as [now correo | r]; cbn [step].
  - destruct (fetchPoints_begin now correo (app w)) as [[st es] c] eqn:E.
    cbn [fst app suspended]. destruct c.
    + apply fetchPoints_begin_returned in E. destruct E as [-> _]. exact G.
    + apply fetchPoints_begin_awaiting in E. destruct E as [F [_ [-> _]]].
      left. split; [reflexivity|].
      destruct G as [[G _] | [_ ->]]; [congruence | reflexivity].
  - destruct (suspended w) as [|n] eqn:S; [cbn [fst]; rewrite S; exact G|].
    destruct (fetchPoints_resume_gate r (app w)) as [H _].
    destruct (fetchPoints_resume r (app w)) as [[st es] c].
    cbn [fst app suspended] in *. right. split; [exact H|].
    destruct G as [[_ G] | [_ G]]; congruence.
Qed.

(** C8 (amended). Gate release: every execution of [fetchPoints] that
    passes the gate ends, whether its reads succeed or fail, with
    [_fetchingPoints] false and without throwing; an execution that
    returns early leaves the object as it found it, so that a call
    rejected because a fetch is in flight returns with the flag still up;
    and along any sequence of calls and settlements the flag is up exactly
    while one invocation is suspended, which lowers it when it settles. *)
Theorem gate_release :
  (forall r st,
      _fetchingPoints (fst (fst (fetchPoints_resume r st))) = false
      /\ snd (fetchPoints_resume r st) = Normal tt)
  /\ (forall now correo st st' es,
         fetchPoints_begin now correo st = (st', es, Returned) -> st' = st /\ es = [])
  /\ (forall now correo st st' es,
         _fetchingPoints st = false ->
         fetchPoints_begin now correo st = (st', es, Returned) ->
         _fetchingPoints st' = false)
  /\ (forall now correo st,
         _fetchingPoints st = true ->
         fetchPoints_begin now correo st = (st, [], Returned))
  /\ (forall evs w, gate_consistent w -> gate_consistent (run w evs)).
Proof.
  split; [|split; [|split; [|split]]].
  - intros r st. destruct (fetchPoints_resume_gate r st) as [H [_ H']].
    split; [exact H | exact H'].
  - intros now correo st st' es H.
    exact (fetchPoints_begin_returned now correo st st' es H).
  - intros now correo st st' es F H.
    destruct (fetchPoints_begin_returned now correo st st' es H) as [-> _]. exact F.
  - intros now correo st H. unfold fetchPoints_begin. rewrite H. reflexivity.
  - induction evs as [|e evs IH]; intros w G; [exact G|].
    cbn [run]. apply IH, step_gate_consistent, G.
Qed.

(** C9. Redemption guard: when no reward of [this.rewards] has the given
    id, or the one that has it is out of stock, or the balance is below
    its cost, [claimReward] returns without a request, without any other
    effect and with the object unchanged. *)
Theorem redemption_guard :
  forall rewardId correo st,
    (find_reward rewardId (rewards st) = None
     \/ exists reward,
          find_reward rewardId (rewards st) = Some reward
          /\ (num_le (ToNumber (nullish (Reward.stock reward) (VNum (JInt 0)))) (JInt 0)
              = true
              \/ num_lt (userPoints st) (ToNumber (Reward.points reward)) = true)) ->
    claimReward_begin rewardId correo st = (st, [], Returned).
Proof.
  intros rewardId correo st [H | [reward [H [G | G]]]];
    unfold claimReward_begin; rewrite H; [reflexivity| |].
  - rewrite G. reflexivity.
  - rewrite G.
    destruct (num_le _ _); reflexivity.
Qed.

(** C10. The unauthenticated no-op: an invocation that passes both
    throttle checks and finds no user identifier returns before the gate
    is set -- the object, and with it [_fetchingPoints] and
    [_lastPointsFetch], is unchanged -- so that an authenticated invocation
    at any later time, even less than 8000 ms after it, is let through. *)
Theorem unauthenticated_noop_frame :
  forall now correo st,
    _fetchingPoints st = false ->
    (8000 <= now - or0 (_lastPointsFetch st))%Z ->
    no_correo correo = true ->
    fetchPoints_begin now correo st = (st, [], Returned)
    /\ forall now' c,
         (now <= now')%Z -> no_correo (Some c) = false ->
         fetchPoints_begin now' (Some c) (fst (fst (fetchPoints_begin now correo st)))
         = (set_lastPointsFetch now' (set_fetchingPoints true st),
            [Fetch (GetPuntos c); Fetch (GetPuntosAcumulados c)], Awaiting).
Proof.
  intros now correo st F T C.
  assert (E : fetchPoints_begin now correo st = (st, [], Returned)).
  { unfold fetchPoints_begin. rewrite F.
    destruct (Z.ltb_spec (now - or0 (_lastPointsFetch st)) 8000); [lia|].
    destruct correo as [[|x c]|]; try reflexivity. discriminate. }
  split; [exact E|].
  intros now' c Hle Hc. rewrite E. cbn [fst].
  unfold fetchPoints_begin. rewrite F.
  destruct (Z.ltb_spec (now' - or0 (_lastPointsFetch st)) 8000); [lia|].
  destruct c as [|x c]; [discriminate | reflexivity].
Qed.

(** *** loadHistoryFromBackend *)

Lemma sort_insert_perm cmp x l : Permutation (x :: l) (sort_insert cmp x l).
Proof.
  induction l as [|y l IH]; cbn [sort_insert]; [apply Permutation_refl|].
  destruct (num_lt (JInt 0) (cmp y x)); [|apply Permutation_refl].
  eapply perm_trans; [apply perm_swap | apply perm_skip, IH].
Qed.

Lemma sort_fold_perm cmp xs : forall placed,
  Permutation (xs ++ placed)
              (fold_left (fun placed x => sort_insert cmp x placed) xs placed).
Proof.
  induction xs as [|x xs IH]; intros placed; [apply Permutation_refl|].
  cbn [fold_left]. eapply perm_trans; [|apply IH].
  eapply perm_trans; [apply Permutation_middle|].
  apply Permutation_app_head, sort_insert_perm.
Qed.

(** Sorting only reorders. *)
Lemma array_sort_perm cmp xs : Permutation xs (array_sort cmp xs).
Proof.
  unfold array_sort. eapply perm_trans; [|apply Permutation_rev].
  rewrite <- (app_nil_r xs) at 1. apply sort_fold_perm.
Qed.

(** A successful load: the history becomes the sorted derived entries;
    nothing is logged. *)
Lemma loadHistory_resume_ok raw l st :
  history_entries raw = Normal l ->
  loadHistory_resume (HistoryFulfilled (Some raw)) st
  = (set_serverHistory (array_sort by_fecha l) (set_serverHistory l st), [], Normal tt).
Proof.
  intros H.
  unfold loadHistory_resume, try_catch, bindM, await_history, ret, lift, modify, get.
  rewrite H. reflexivity.
Qed.

Lemma map_throwing_In {A B} (f : A -> completion B) xs : forall ys y,
  map_throwing f xs = Normal ys -> In y ys -> exists x, In x xs /\ f x = Normal y.
Proof.
  induction xs as [|x xs IH]; intros ys y H Hy; cbn [map_throwing] in H.
  - injection H as <-. destruct Hy.
  - destruct (f x) as [b|e] eqn:Fx; [|discriminate]. cbn [bind] in H.
    destruct (map_throwing f xs) as [bs|e] eqn:Fxs; [|discriminate].
    cbn [bind] in H. injection H as <-.
    destruct Hy as [<- | Hy].
    + exists x. split; [left; reflexivity | exact Fx].
    + destruct (IH bs y eq_refl Hy) as [x' [Hin Hf]].
      exists x'. split; [right; exact Hin | exact Hf].
Qed.


Example badge_samples :
  (forall e,
      history_entry (Item (VStr str_escaneo)
                          (VStr (lit "+1000000000000000000000 puntos")) VUndefined)
      = Normal e ->
      Entry.delta e = JInt (10 ^ 21) /\ Entry.badge e = lit "+1e+21")
  /\ (forall e,
         history_entry (Item (VStr str_canje)
                             (VStr (lit "gasto 18446744073709551616 pts")) VUndefined)
         = Normal e ->
         Entry.delta e = JInt (- 2 ^ 64)
         /\ Entry.badge e = lit "-18446744073709552000")
  /\ (forall e,
         history_entry (Item (VStr str_escaneo)
                             (VStr (43%N :: repeat 57%N 309 ++ lit " puntos")) VUndefined)
         = Normal e ->
         Entry.delta e = JInf false /\ Entry.badge e = lit "+Infinity").
Proof.
  repeat split; vm_compute in H; injection H as <-; vm_compute; reflexivity.
Qed.


(** C5. History replace-not-merge: after two successful loads in a row,
    with payloads P1 then P2, the history is exactly the entries derived
    from P2, in the order the sort gives them; it does not depend on P1 or
    on what was held before, and every entry in it is derived from P2. *)
Theorem history_replace_not_merge :
  forall st raw1 raw2 l1 l2,
    history_entries raw1 = Normal l1 ->
    history_entries raw2 = Normal l2 ->
    serverHistory
      (fst (fst (loadHistory_resume (HistoryFulfilled (Some raw2))
                   (fst (fst (loadHistory_resume (HistoryFulfilled (Some raw1)) st))))))
    = array_sort by_fecha l2
    /\ Permutation l2 (array_sort by_fecha l2)
    /\ (forall e, In e (array_sort by_fecha l2) -> In e l2)
    /\ array_sort by_fecha l2
       = serverHistory (fst (fst (loadHistory_resume (HistoryFulfilled (Some raw2)) st))).
Proof.
  intros st raw1 raw2 l1 l2 H1 H2.
  rewrite (loadHistory_resume_ok raw1 l1 st H1). cbn [fst].
  rewrite !(loadHistory_resume_ok raw2 l2 _ H2). cbn [fst serverHistory set_serverHistory].
  repeat split.
  - apply array_sort_perm.
  - intros e He. apply (Permutation_in e (Permutation_sym (array_sort_perm by_fecha l2))), He.
Qed.


(** C4 (code at the failing input). With a dated entry followed by an
    entry without date, a successful load leaves the dated entry first and
    the "Ahora" entry behind it: the comparator yields NaN on the sentinel,
    which the sort takes for "equal". *)
Theorem sentinel_not_moved_ahead :
  forall st a1 d1 x f t a2 d2,
    Date_parse str_Ahora = JNaN ->
    Date_parse (x :: f) = JInt t ->
    exists e1 e2,
      history_entry (Item a1 (VStr d1) (VStr (x :: f))) = Normal e1
      /\ history_entry (Item a2 (VStr d2) VUndefined) = Normal e2
      /\ Entry.fecha e1 = toLocaleString t
      /\ Entry.fecha e2 = str_Ahora
      /\ serverHistory
           (fst (fst (loadHistory_resume
                        (HistoryFulfilled
                           (Some (HistArray [Item a1 (VStr d1) (VStr (x :: f));
                                             Item a2 (VStr d2) VUndefined]))) st)))
         = [e1; e2].
Proof.
  intros st a1 d1 x f t a2 d2 HA Hf.
  cbn [history_entry]. rewrite !parseDelta_agrees. cbn [bind truthy].
  unfold formatFecha. cbn [Date_of]. rewrite Hf.
  eexists. eexists. split; [reflexivity|]. split; [reflexivity|].
  split; [reflexivity|]. split; [reflexivity|].
  erewrite loadHistory_resume_ok.
  2:{ cbn [history_entries map_throwing history_entry].
      rewrite !parseDelta_agrees. cbn [bind truthy].
      unfold formatFecha. cbn [Date_of]. rewrite Hf. reflexivity. }
  cbn [fst serverHistory set_serverHistory].
  unfold array_sort. cbn [fold_left sort_insert].
  unfold by_fecha at 1. cbn [Entry.fecha]. rewrite HA. cbn [num_sub num_lt].
  reflexivity.
Qed.


(* ================================================================== *)
(** ** Further properties: points, rewards and history *)
(* ================================================================== *)

(** *** Prefixes and suffixes by a class *)

Lemma drop_while_all p s : forallb p s = true -> drop_while p s = [].
Proof.
  induction s as [|x s IH]; [reflexivity|]. cbn. intros H.
  apply andb_true_iff in H. destruct H as [-> H]. auto.
Qed.

Lemma drop_while_nil_all p s : drop_while p s = [] -> forallb p s = true.
Proof.
  induction s as [|x s IH]; [reflexivity|]. cbn.
  destruct (p x); [cbn; exact IH | discriminate].
Qed.

Lemma drop_while_app_stop p a x b :
  forallb p a = true -> p x = false -> drop_while p (a ++ x :: b) = x :: b.
Proof.
  induction a as [|y a IH]; cbn; intros Ha Hx.
  - rewrite Hx. reflexivity.
  - apply andb_true_iff in Ha. destruct Ha as [-> Ha]. auto.
Qed.

Lemma take_drop_while p s : take_while p s ++ drop_while p s = s.
Proof.
  induction s as [|x s IH]; [reflexivity|]. cbn.
  destruct (p x); [cbn; rewrite IH|]; reflexivity.
Qed.

(** *** Decimal round trip *)

Lemma digits_val_acc d : forall acc,
  Zpos (Pos.of_uint_acc d acc)
  = fold_left (fun a c => a * 10 + digit_val c)%Z (uint_units d) (Zpos acc).
Proof.
  induction d; intros acc; cbn [Pos.of_uint_acc uint_units fold_left];
    try reflexivity; rewrite IHd; f_equal;
    rewrite ?Pos2Z.inj_add, ?Pos2Z.inj_mul; unfold digit_val; lia.
Qed.

Lemma digits_val_uint d : digits_val (uint_units d) = Z.of_N (Pos.of_uint d).
Proof.
  unfold digits_val.
  induction d; cbn [Pos.of_uint uint_units fold_left]; try reflexivity;
    try (cbn [Z.of_N]; rewrite digits_val_acc; reflexivity).
  exact IHd.
Qed.

(** Parsing the decimal form of a non-negative integer gives it back. *)
Lemma digits_val_toString p : (0 <= p)%Z -> digits_val (int_toString p) = p.
Proof.
  intros H. unfold int_toString. destruct p as [|q|q]; [reflexivity| |lia].
  cbn [Z.to_int]. rewrite digits_val_uint, DecimalPos.Unsigned.of_to. reflexivity.
Qed.

Lemma int_toString_nonempty p : (0 <= p)%Z -> int_toString p <> [].
Proof.
  intros H E. pose proof (digits_val_toString p H) as D. rewrite E in D.
  cbn in D. subst p. discriminate E.
Qed.

Lemma take_while_app_stop p a x b :
  forallb p a = true -> p x = false -> take_while p (a ++ x :: b) = a.
Proof.
  induction a as [|y a IH]; cbn; intros Ha Hx.
  - rewrite Hx. reflexivity.
  - apply andb_true_iff in Ha. destruct Ha as [-> Ha]. rewrite IH; auto.
Qed.

(** The text of a local record parses back to its points. *)
Lemma parse_local_detalle p :
  (0 <= p <= two53)%Z ->
  parseDeltaFromDetalle (VStr str_escaneo)
    (VStr (43%N :: int_toString p ++ lit " puntos por reciclaje"))
  = Normal (JInt p).
Proof.
  intros [H B]. rewrite <- (to_number_safe p) by lia. rewrite parseDelta_agrees.
  change (Spec.kind_of (VStr str_escaneo)) with Spec.Earn.
  unfold Spec.delta. cbn [Spec.first_match].
  unfold Spec.earn_here at 1.
  destruct (int_toString_sign p) as [_ D]. specialize (D H).
  change (lit " puntos por reciclaje") with (32%N :: lit "puntos por reciclaje").
  rewrite (take_while_app_stop is_digit _ 32%N _ D eq_refl).
  rewrite (drop_while_app_stop is_digit _ 32%N _ D eq_refl).
  destruct (int_toString p) as [|y ds] eqn:E; [exact (False_ind _ (int_toString_nonempty p H E))|].
  cbn [Spec.nonempty andb].
  change (Spec.starts_with_ci (lit "puntos")
            (drop_while is_space (32%N :: lit "puntos por reciclaje"))) with true.
  cbn [orb Spec.or_zero]. rewrite <- E, (digits_val_toString p H). reflexivity.
Qed.

(** *** The local log and the history view *)

(** The entry shown for a local record is the entry that a server item
    with the same action and text, and no date, would give. The points are
    a non-negative safe integer (up to 2^53 - 1), which a template literal
    prints in plain decimal digits. *)
Theorem local_echo_round_trip :
  forall item p,
    (0 <= p <= 9007199254740991)%Z ->
    history_entry (Item (Entry.accion (local_entry (item, JInt p)))
                        (Entry.detalle (local_entry (item, JInt p))) VUndefined)
    = Normal (local_entry (item, JInt p)).
Proof.
  intros item p [H B]. unfold local_entry.
  cbn [snd Entry.accion Entry.detalle history_entry].
  rewrite (num_toString_safe p) by (unfold two53; lia).
  rewrite (parse_local_detalle p) by (unfold two53; lia).
  cbn [bind truthy num_ge num_le].
  rewrite (num_toString_safe p) by (unfold two53; lia).
  destruct (Z.leb_spec 0 p); [reflexivity | lia].
Qed.

Lemma array_sort_nil cmp l : array_sort cmp l = [] -> l = [].
Proof.
  intros E. pose proof (array_sort_perm cmp l) as P. rewrite E in P.
  apply Permutation_sym, Permutation_nil in P. exact P.
Qed.

(** The view shows the server history whenever it is not empty, and only
    then; with an empty server history it shows the local log, newest
    record first. *)
Theorem renderHistory_prefers_server :
  (forall st raw l,
      history_entries raw = Normal l ->
      l <> [] ->
      renderHistory_data
        (fst (fst (loadHistory_resume (HistoryFulfilled (Some raw)) st)))
      = array_sort by_fecha l)
  /\ (forall st raw,
         history_entries raw = Normal [] ->
         renderHistory_data
           (fst (fst (loadHistory_resume (HistoryFulfilled (Some raw)) st)))
         = map local_entry (myRecyclingHistory st))
  /\ (forall st item points,
         serverHistory st = [] ->
         renderHistory_data (addToHistory item points st)
         = local_entry (item, points) :: renderHistory_data st)
  /\ (forall st item points,
         serverHistory st <> [] ->
         renderHistory_data (addToHistory item points st) = serverHistory st).
Proof.
  split; [|split; [|split]].
  - intros st raw l H N. rewrite (loadHistory_resume_ok raw l st H).
    cbn [fst]. unfold renderHistory_data. cbn [serverHistory set_serverHistory].
    destruct (array_sort by_fecha l) eqn:E; [|reflexivity].
    apply array_sort_nil in E. contradiction.
  - intros st raw H. rewrite (loadHistory_resume_ok raw [] st H). reflexivity.
  - intros st item points H. unfold renderHistory_data, addToHistory.
    cbn [serverHistory myRecyclingHistory set_myRecyclingHistory]. rewrite H. reflexivity.
  - intros st item points H. unfold renderHistory_data, addToHistory.
    cbn [serverHistory myRecyclingHistory set_myRecyclingHistory].
    destruct (serverHistory st); [contradiction | reflexivity].
Qed.

(** *** The sign of a delta *)

Lemma digits_val_nonneg ds : forallb is_digit ds = true -> (0 <= digits_val ds)%Z.
Proof.
  unfold digits_val. assert (G : forall acc, (0 <= acc)%Z -> forallb is_digit ds = true ->
    (0 <= fold_left (fun a c => a * 10 + digit_val c) ds acc)%Z).
  { induction ds as [|x ds IH]; intros acc Ha H; [exact Ha|].
    cbn [forallb] in H. apply andb_true_iff in H. destruct H as [Hx H].
    cbn [fold_left]. apply IH; [|exact H].
    apply digit_cases in Hx. unfold digit_val.
    repeat (destruct Hx as [Hx | Hx]); subst; cbn; lia. }
  apply G. lia.
Qed.

Lemma first_match_sign (f : jsstring -> option Z) (P : Z -> Prop) :
  (forall s v, f s = Some v -> P v) ->
  forall s v, Spec.first_match f s = Some v -> P v.
Proof.
  intros Hf. induction s as [|x s IH]; intros v; cbn [Spec.first_match].
  - destruct (f []) eqn:E; [intros [= <-]; eauto | discriminate].
  - destruct (f (x :: s)) eqn:E; [intros [= <-]; eauto | apply IH].
Qed.

Lemma earn_here_nonneg s v : Spec.earn_here s = Some v -> (0 <= v)%Z.
Proof.
  unfold Spec.earn_here. destruct s as [|x r]; [discriminate|].
  destruct x as [|q]; [discriminate|].
  do 6 (destruct q as [q|q|]; try discriminate).
  destruct (_ && _); [|discriminate]. intros [= <-].
  apply digits_val_nonneg, forallb_take_while.
Qed.

Lemma redeem_here_nonpos s v : Spec.redeem_here s = Some v -> (v <= 0)%Z.
Proof.
  unfold Spec.redeem_here. destruct (Spec.starts_with_ci _ s); [|discriminate].
  destruct (skipn 4 s) as [|o r]; [discriminate|].
  destruct (_ && _); [|discriminate]. intros [= <-].
  pose proof (digits_val_nonneg _ (forallb_take_while is_digit (drop_while is_space r))).
  lia.
Qed.

(** An earn entry never has a negative delta and a redeem entry never a
    positive one, whatever the text: the helper returns a number [n] with
    [0 <= n], respectively [n <= 0] (so never NaN; an infinity on a run of
    digits too long for a double). *)
Theorem delta_sign_by_kind :
  forall d,
    (exists n, parseDeltaFromDetalle (VStr str_escaneo) (VStr d) = Normal n
               /\ num_le (JInt 0) n = true)
    /\ (exists n, parseDeltaFromDetalle (VStr str_canje) (VStr d) = Normal n
                  /\ num_le n (JInt 0) = true).
Proof.
  intros d. rewrite !parseDelta_agrees.
  change (Spec.kind_of (VStr str_escaneo)) with Spec.Earn.
  change (Spec.kind_of (VStr str_canje)) with Spec.Redeem.
  unfold Spec.delta. split; eexists; (split; [reflexivity|]).
  - apply to_number_nonneg.
    destruct (Spec.first_match Spec.earn_here d) as [v|] eqn:E; cbn; [|lia].
    exact (first_match_sign _ (fun v => 0 <= v)%Z earn_here_nonneg d v E).
  - apply to_number_nonpos.
    destruct (Spec.first_match Spec.redeem_here d) as [v|] eqn:E; cbn; [|lia].
    exact (first_match_sign _ (fun v => v <= 0)%Z redeem_here_nonpos d v E).
Qed.

(** *** Rewards *)

Lemma map_indexed_nth items : forall i rs k it,
  map_indexed reward_of i items = Normal rs ->
  nth_error items k = Some it ->
  exists r, reward_of (i + k) it = Normal r /\ nth_error rs k = Some r.
Proof.
  induction items as [|x items IH]; intros i rs k it H Hk.
  - destruct k; discriminate.
  - cbn [map_indexed] in H. destruct (reward_of i x) as [y|e] eqn:Fx; [|discriminate].
    cbn [bind] in H.
    destruct (map_indexed reward_of (S i) items) as [ys|e] eqn:Fxs; [|discriminate].
    cbn [bind] in H. injection H as <-.
    destruct k as [|k]; cbn [nth_error] in Hk |- *.
    + injection Hk as <-. rewrite Nat.add_0_r. eauto.
    + destruct (IH (S i) ys k it Fxs Hk) as [r [R1 R2]].
      exists r. split; [|exact R2]. rewrite <- R1. f_equal. lia.
Qed.

Lemma map_indexed_shape items : forall i rs,
  map_indexed reward_of i items = Normal rs ->
  List.length rs = List.length items
  /\ forall k r, nth_error rs k = Some r ->
       Reward.id r = (Z.of_nat (i + k) + 1)%Z
       /\ find_reward (JInt (Z.of_nat (i + k) + 1)%Z) rs = Some r
       /\ exists n, Reward.stock r = VNum n.
Proof.
  induction items as [|x items IH]; intros i rs H; cbn [map_indexed] in H.
  - injection H as <-. split; [reflexivity|]. intros [|k] r; discriminate.
  - destruct (reward_of i x) as [y|e] eqn:Fx; [|discriminate]. cbn [bind] in H.
    destruct (map_indexed reward_of (S i) items) as [ys|e] eqn:Fxs; [|discriminate].
    cbn [bind] in H. injection H as <-.
    destruct (IH (S i) ys Fxs) as [L A].
    assert (Y : Reward.id y = (Z.of_nat i + 1)%Z /\ exists n, Reward.stock y = VNum n).
    { destruct x as [|nombre pts stock partner]; [discriminate|].
      cbn [reward_of] in Fx. injection Fx as <-. cbn. split; [reflexivity|].
      destruct stock; eauto. }
    destruct Y as [Yid Ystock].
    split; [cbn; rewrite L; reflexivity|].
    intros [|k] r Hr; cbn [nth_error] in Hr.
    + injection Hr as <-. rewrite Nat.add_0_r. split; [exact Yid|].
      split; [|exact Ystock]. cbn [find_reward find]. rewrite Yid, Z.eqb_refl. reflexivity.
    + destruct (A k r Hr) as [A1 [A2 A3]].
      replace (Z.of_nat (i + S k)) with (Z.of_nat (S i + k)) by lia.
      split; [exact A1|]. split; [|exact A3].
      cbn [find_reward find]. rewrite Yid.
      destruct (Z.eqb_spec (Z.of_nat i + 1) (Z.of_nat (S i + k) + 1))%Z; [lia|].
      exact A2.
Qed.

(** A successful [loadRewards] replaces the rewards and renders them; the
    list has one reward per item, in order; the reward at position [k]
    has id [k + 1], is the one [claimReward] finds under that id, and has
    a number as its stock. *)
Theorem loadRewards_ids :
  forall st items rs,
    rewards_of (PremiosArray items) = Normal rs ->
    loadRewards_resume (PremiosFulfilled (Some (PremiosArray items))) st
    = (set_rewards rs st, [RenderRewards], Normal tt)
    /\ List.length rs = List.length items
    /\ forall k r, nth_error rs k = Some r ->
         Reward.id r = (Z.of_nat k + 1)%Z
         /\ find_reward (JInt (Z.of_nat k + 1)%Z) rs = Some r
         /\ exists n, Reward.stock r = VNum n.
Proof.
  intros st items rs H. split.
  - unfold loadRewards_resume, try_catch, bindM, await_premios, ret, lift, modify,
      renderRewards, emit.
    rewrite H. reflexivity.
  - cbn [rewards_of] in H. exact (map_indexed_shape items 0 rs H).
Qed.

Lemma map_indexed_null items : forall i,
  In PremioNull items -> exists e, map_indexed reward_of i items = Throw e.
Proof.
  induction items as [|x items IH]; intros i H; [destruct H|].
  cbn [map_indexed]. destruct H as [-> | H].
  - cbn. eauto.
  - destruct (reward_of i x); cbn [bind]; [|eauto].
    destruct (IH (S i) H) as [e ->]. cbn. eauto.
Qed.

(** One null element in the list of [/premios] makes the whole load fail:
    the rewards held before stay, none of the other items is taken, the
    error is logged and nothing is thrown. *)
Theorem loadRewards_all_or_nothing :
  forall st items,
    In PremioNull items ->
    exists e,
      loadRewards_resume (PremiosFulfilled (Some (PremiosArray items))) st
      = (st, [ConsoleError e], Normal tt).
Proof.
  intros st items H. destruct (map_indexed_null items 0 H) as [e E].
  exists e.
  unfold loadRewards_resume, try_catch, bindM, await_premios, ret, lift, modify,
    renderRewards, emit.
  cbn [rewards_of]. rewrite E. reflexivity.
Qed.

(** An item of [/premios] whose stock is missing or not a number is loaded
    as out of stock: its button is disabled with the caption "Agotado",
    and [claimReward] on its id returns without a request. *)
Theorem unstocked_reward_not_claimable :
  forall st items rs k nombre pts stock partner correo,
    rewards_of (PremiosArray items) = Normal rs ->
    nth_error items k = Some (Premio nombre pts stock partner) ->
    (forall n, stock <> VNum n) ->
    claimReward_begin (JInt (Z.of_nat k + 1)%Z) correo (set_rewards rs st)
    = (set_rewards rs st, [], Returned)
    /\ exists r, nth_error rs k = Some r
                 /\ reward_button (set_rewards rs st) r = (true, str_Agotado).
Proof.
  intros st items rs k nombre pts stock partner correo H Hk Hs.
  cbn [rewards_of] in H.
  destruct (map_indexed_nth items 0 rs k _ H Hk) as [r [R1 R2]].
  destruct (map_indexed_shape items 0 rs H) as [_ A].
  destruct (A k r R2) as [_ [F _]]. cbn [Nat.add] in F.
  assert (S0 : Reward.stock r = VNum (JInt 0)).
  { cbn [reward_of] in R1. injection R1 as <-. cbn.
    destruct stock; try reflexivity. exfalso. exact (Hs n eq_refl). }
  split.
  - unfold claimReward_begin. cbn [rewards set_rewards]. rewrite F, S0. reflexivity.
  - exists r. split; [exact R2|]. unfold reward_button. rewrite S0.
    cbn [nullish ToNumber num_le]. cbn. rewrite orb_true_r. reflexivity.
Qed.

(** The button of a reward is enabled exactly when [claimReward] on that
    reward, with a stored identifier, sends the redemption request; when
    it is disabled, [claimReward] does nothing. *)
Theorem reward_button_matches_guard :
  forall st reward x c,
    find_reward (JInt (Reward.id reward)) (rewards st) = Some reward ->
    (fst (reward_button st reward) = false ->
     snd (reward_button st reward) = str_Canjear
     /\ claimReward_begin (JInt (Reward.id reward)) (Some (x :: c)) st
        = (st, [Fetch (PostCanjear (x :: c) (Reward.name reward))], Awaiting))
    /\ (fst (reward_button st reward) = true ->
        snd (reward_button st reward) <> str_Canjear
        /\ claimReward_begin (JInt (Reward.id reward)) (Some (x :: c)) st
           = (st, [], Returned)).
Proof.
  intros st reward x c F. unfold reward_button, claimReward_begin. rewrite F.
  cbn [fst snd].
  destruct (num_le (ToNumber (nullish (Reward.stock reward) (VNum (JInt 0)))) (JInt 0));
    destruct (num_lt (userPoints st) (ToNumber (Reward.points reward)));
    cbn [orb]; split; intros H; try discriminate H; split; try reflexivity;
    discriminate.
Qed.

(** *** fetchPoints: what a successful refresh touches, and when it runs *)

(** A successful refresh writes the two point fields and lowers the flag;
    the tab, the time of the last fetch, both histories and the rewards are
    untouched; the display receives the new pair, and the rewards are
    rendered again exactly on the rewards tab. *)
Theorem fetchPoints_success_frame :
  forall saldo total st,
    activeTab (fst (fst (fetchPoints_resume
        (PointsFulfilled (Response (Some saldo)) (Response (Some total))) st)))
    = activeTab st
    /\ _lastPointsFetch (fst (fst (fetchPoints_resume
        (PointsFulfilled (Response (Some saldo)) (Response (Some total))) st)))
       = _lastPointsFetch st
    /\ serverHistory (fst (fst (fetchPoints_resume
        (PointsFulfilled (Response (Some saldo)) (Response (Some total))) st)))
       = serverHistory st
    /\ myRecyclingHistory (fst (fst (fetchPoints_resume
        (PointsFulfilled (Response (Some saldo)) (Response (Some total))) st)))
       = myRecyclingHistory st
    /\ rewards (fst (fst (fetchPoints_resume
        (PointsFulfilled (Response (Some saldo)) (Response (Some total))) st)))
       = rewards st
    /\ snd (fst (fetchPoints_resume
        (PointsFulfilled (Response (Some saldo)) (Response (Some total))) st))
       = UpdatePointsDisplay
           (userPoints (fst (fst (fetchPoints_resume
              (PointsFulfilled (Response (Some saldo)) (Response (Some total))) st))))
           (userPointsTotal (fst (fst (fetchPoints_resume
              (PointsFulfilled (Response (Some saldo)) (Response (Some total))) st))))
         :: (if str_eqb (activeTab st) str_rewards then [RenderRewards] else []).
Proof.
  intros saldo total st. rewrite fetchPoints_resume_ok. cbn. repeat split.
Qed.

Lemma run_gate_consistent evs : forall w, gate_consistent w -> gate_consistent (run w evs).
Proof.
  induction evs as [|e evs IH]; intros w G; [exact G|].
  cbn [run]. apply IH, step_gate_consistent, G.
Qed.

(** The throttle never locks out: after any sequence of calls and
    settlements, once no invocation is suspended, a call with a stored
    identifier made 8000 ms or more after the last started fetch sends
    the two requests. *)
Theorem throttle_never_locks_out :
  forall w evs now x c,
    gate_consistent w ->
    suspended (run w evs) = 0%nat ->
    (8000 <= now - _lastPointsFetch (app (run w evs)))%Z ->
    snd (step (run w evs) (CallFetchPoints now (Some (x :: c))))
    = [Fetch (GetPuntos (x :: c)); Fetch (GetPuntosAcumulados (x :: c))].
Proof.
  intros w evs now x c G S T.
  pose proof (run_gate_consistent evs w G) as [[_ G'] | [G' _]]; [congruence|].
  cbn [step]. unfold fetchPoints_begin. rewrite G', or0_id.
  destruct (Z.ltb_spec (now - _lastPointsFetch (app (run w evs))) 8000); [lia|].
  reflexivity.
Qed.

(** *** The sort on dated entries *)







(** *** One entry per item *)

Lemma map_throwing_length {A B} (f : A -> completion B) xs : forall ys,
  map_throwing f xs = Normal ys -> List.length ys = List.length xs.
Proof.
  induction xs as [|x xs IH]; intros ys H; cbn [map_throwing] in H.
  - injection H as <-. reflexivity.
  - destruct (f x); [|discriminate]. cbn [bind] in H.
    destruct (map_throwing f xs) as [bs|]; [|discriminate]. cbn [bind] in H.
    injection H as <-. cbn. rewrite (IH bs eq_refl). reflexivity.
Qed.

(** A successful load makes one entry of every item of the payload, none
    dropped and none repeated, and each entry keeps the action tag and the
    text of its item. *)
Theorem history_one_entry_per_item :
  forall st items l,
    history_entries (HistArray items) = Normal l ->
    List.length (serverHistory
                   (fst (fst (loadHistory_resume
                                (HistoryFulfilled (Some (HistArray items))) st))))
    = List.length items
    /\ forall e,
         In e (serverHistory
                 (fst (fst (loadHistory_resume
                              (HistoryFulfilled (Some (HistArray items))) st)))) ->
         exists fecha, In (Item (Entry.accion e) (Entry.detalle e) fecha) items.
Proof.
  intros st items l H. rewrite (loadHistory_resume_ok _ l st H).
  cbn [fst serverHistory set_serverHistory]. cbn [history_entries] in H. split.
  - rewrite <- (Permutation_length (array_sort_perm by_fecha l)).
    exact (map_throwing_length _ _ _ H).
  - intros e He.
    apply (Permutation_in e (Permutation_sym (array_sort_perm by_fecha l))) in He.
    destruct (map_throwing_In _ _ _ _ H He) as [h [Hin Hh]].
    destruct h as [|accion detalle fecha]; [discriminate|].
    cbn [history_entry] in Hh.
    destruct (parseDeltaFromDetalle accion detalle); [|discriminate].
    cbn [bind] in Hh. injection Hh as <-. cbn. exists fecha. exact Hin.
Qed.

End Runtime.

(* ================================================================== *)
(** ** Further properties: form validation *)
(* ================================================================== *)

Import Validator.


(** Greedy iteration succeeds exactly when some split of the input into a
    run of the class and a rest accepted by the continuation exists. *)
Lemma star_class_some p k : forall s c,
  star_class p k s c <> None <->
  exists a b, s = a ++ b /\ forallb p a = true /\ k b c <> None.
Proof.
  induction s as [|x s IH]; intros c; cbn [star_class].
  - split.
    + intros H. exists [], []. auto.
    + intros [a [b [E [_ H]]]]. symmetry in E. apply app_eq_nil in E.
      destruct E as [_ ->]. exact H.
  - destruct (p x) eqn:Hp.
    + split.
      * destruct (star_class p k s c) eqn:Es.
        -- intros _. destruct (proj1 (IH c)) as [a [b [E [Ha Hb]]]];
             [rewrite Es; discriminate|].
           exists (x :: a), b. subst s. cbn. rewrite Hp, Ha. auto.
        -- intros H. exists [], (x :: s). auto.
      * intros [a [b [E [Ha Hb]]]]. destruct a as [|y a].
        -- cbn in E. subst b. destruct (star_class p k s c); [discriminate | exact Hb].
        -- cbn in E. injection E as -> ->. cbn in Ha. apply andb_true_iff in Ha.
           assert (H : star_class p k (a ++ b) c <> None).
           { apply IH. exists a, b. tauto. }
           destruct (star_class p k (a ++ b) c); [discriminate | contradiction].
    + split.
      * intros H. exists [], (x :: s). auto.
      * intros [a [b [E [Ha Hb]]]]. destruct a as [|y a].
        -- cbn in E. subst b. exact Hb.
        -- cbn in E. injection E as -> ->. cbn in Ha. rewrite Hp in Ha. discriminate.
Qed.

Lemma at_end_blocked p : blocked p at_end.
Proof. intros x s c _. reflexivity. Qed.

(** [[^\s@]+$] at the head of [u]. *)
Lemma email_last u c :
  rmatch (RSeq (RPlus (RChar not_space_at)) REmpty) u c at_end <> None
  <-> u <> [] /\ forallb not_space_at u = true.
Proof.
  rewrite rmatch_seq, rmatch_plus. destruct u as [|z u]; [split; [tauto | intros [H _]; congruence]|].
  cbn [forallb]. destruct (not_space_at z); cbn [andb].
  - rewrite star_class_blocked.
    2:{ intros x s c0 _. reflexivity. }
    cbn [rmatch]. unfold at_end. split.
    + intros H. split; [discriminate|]. apply drop_while_nil_all.
      destruct (drop_while not_space_at u); [reflexivity | contradiction].
    + intros [_ H]. rewrite (drop_while_all _ _ H). discriminate.
  - split; [tauto | intros [_ H]; discriminate].
Qed.

(** [isValidEmail] accepts exactly the strings made of a local part, an
    at sign, a domain, a dot and a tail, the three parts non-empty and free
    of white space and of the at sign. *)
Theorem isValidEmail_iff s :
  isValidEmail s = true <->
  exists l d t,
    s = l ++ 64%N :: d ++ 46%N :: t
    /\ l <> [] /\ d <> [] /\ t <> []
    /\ forallb not_space_at l = true
    /\ forallb not_space_at d = true
    /\ forallb not_space_at t = true.
Proof.
  unfold isValidEmail, test_whole, re_email.
  cbn [RSeqs].
  set (K2 := fun (s1 : jsstring) (c1 : capture) =>
               rmatch (RSeq (chr 46) (RSeq (RPlus (RChar not_space_at)) REmpty))
                      s1 c1 at_end).
  set (K1 := fun (s1 : jsstring) (c1 : capture) =>
               rmatch (RSeq (chr 64)
                         (RSeq (RPlus (RChar not_space_at))
                            (RSeq (chr 46)
                               (RSeq (RPlus (RChar not_space_at)) REmpty))))
                      s1 c1 at_end).
  assert (HK2 : forall b c, K2 b c <> None <->
                  exists t, b = 46%N :: t /\ t <> []
                            /\ forallb not_space_at t = true).
  { intros b c. unfold K2. rewrite rmatch_seq. unfold chr. rewrite rmatch_char.
    destruct b as [|x b].
    - split; [tauto | intros [t [E _]]; discriminate].
    - destruct (N.eqb_spec x 46) as [->|Hx].
      + rewrite email_last. split.
        * intros [H1 H2]. exists b. auto.
        * intros [t [E [H1 H2]]]. injection E as <-. auto.
      + split; [tauto | intros [t [E _]]; congruence]. }
  assert (HK1 : forall b c, K1 b c <> None <->
                  exists d t, b = 64%N :: d ++ 46%N :: t /\ d <> [] /\ t <> []
                              /\ forallb not_space_at d = true
                              /\ forallb not_space_at t = true).
  { intros b c. unfold K1. rewrite rmatch_seq. unfold chr at 1. rewrite rmatch_char.
    destruct b as [|x b].
    - split; [tauto | intros [d [t [E _]]]; discriminate].
    - destruct (N.eqb_spec x 64) as [->|Hx].
      2:{ split; [tauto | intros [d [t [E _]]]; congruence]. }
      rewrite rmatch_seq, rmatch_plus.
      destruct b as [|y b].
      + split; [tauto|]. intros [d [t [E [Hd _]]]]. destruct d; [congruence | discriminate].
      + destruct (not_space_at y) eqn:Hy.
        * fold K2. rewrite star_class_some. split.
          -- intros [a [r [E [Ha Hr]]]]. apply HK2 in Hr.
             destruct Hr as [t [-> [Ht1 Ht2]]].
             exists (y :: a), t. subst b. cbn. rewrite Hy, Ha.
             repeat split; auto. discriminate.
          -- intros [d [t [E [Hd [Ht [Fd Ft]]]]]].
             destruct d as [|y' d]; [congruence|]. cbn in E. injection E as -> ->.
             cbn in Fd. apply andb_true_iff in Fd.
             exists d, (46%N :: t). repeat split; [tauto|]. apply HK2. eauto.
        * split; [tauto|]. intros [d [t [E [Hd [_ [Fd _]]]]]].
          destruct d as [|y' d]; [congruence|]. cbn in E. injection E as -> ->.
          cbn in Fd. rewrite Hy in Fd. discriminate. }
  rewrite rmatch_seq.
  change (match rmatch (RPlus (RChar not_space_at)) s None K1 with
          | Some _ => true
          | None => false
          end = true <->
          (exists l d t : list N,
             s = l ++ 64%N :: d ++ 46%N :: t /\
             l <> [] /\ d <> [] /\ t <> [] /\
             forallb not_space_at l = true /\
             forallb not_space_at d = true /\
             forallb not_space_at t = true)).
  assert (B1 : blocked not_space_at K1).
  { intros x r c Hx. destruct (K1 (x :: r) c) eqn:E; [|reflexivity].
    assert (H : K1 (x :: r) c <> None) by (rewrite E; discriminate).
    apply HK1 in H. destruct H as [d [t [E' _]]]. injection E' as -> _.
    discriminate. }
  rewrite rmatch_plus.
  destruct s as [|x s].
  - split; [discriminate|]. intros [l [d [t [E [Hl _]]]]].
    destruct l; [congruence | discriminate].
  - destruct (not_space_at x) eqn:Hx.
    + rewrite (star_class_blocked _ _ B1).
      assert (Iff : K1 (drop_while not_space_at s) None <> None <->
                    exists l d t,
                      x :: s = l ++ 64%N :: d ++ 46%N :: t
                      /\ l <> [] /\ d <> [] /\ t <> []
                      /\ forallb not_space_at l = true
                      /\ forallb not_space_at d = true
                      /\ forallb not_space_at t = true).
      { rewrite HK1. split.
        - intros [d [t [E [Hd [Ht [Fd Ft]]]]]].
          exists (x :: take_while not_space_at s), d, t.
          repeat split; auto; try discriminate.
          + cbn. f_equal. rewrite <- E. symmetry. apply take_drop_while.
          + cbn. rewrite Hx. apply forallb_take_while.
        - intros [l [d [t [E [Hl [Hd [Ht [Fl [Fd Ft]]]]]]]]].
          destruct l as [|x' l]; [congruence|]. cbn in E. injection E as -> ->.
          cbn in Fl. apply andb_true_iff in Fl.
          exists d, t. repeat split; auto.
          apply drop_while_app_stop; [tauto | reflexivity]. }
      destruct (K1 (drop_while not_space_at s) None) eqn:E.
      * split; [intros _; apply Iff; discriminate | reflexivity].
      * split; [discriminate|]. intros H. apply Iff in H. congruence.
    + split; [discriminate|]. intros [l [d [t [E [Hl [_ [_ [Fl _]]]]]]]].
      destruct l as [|x' l]; [congruence|]. cbn in E. injection E as -> ->.
      cbn in Fl. rewrite Hx in Fl. discriminate.
Qed.

Lemma forallb_rev_iff (p : N -> bool) s : forallb p (List.rev s) = forallb p s.
Proof.
  induction s as [|x s IH]; [reflexivity|]. cbn [List.rev].
  rewrite forallb_app, IH. cbn. rewrite andb_true_r. apply andb_comm.
Qed.

Lemma drop_while_head_stop p s :
  match drop_while p s with [] => True | x :: _ => p x = false end.
Proof.
  induction s as [|x s IH]; cbn; [exact I|].
  destruct (p x) eqn:E; [exact IH | exact E].
Qed.

(** A string trims to nothing exactly when it is white space throughout. *)
Lemma trim_blank s :
  match trim s with [] => true | _ :: _ => false end = forallb is_space s.
Proof.
  unfold trim. destruct (forallb is_space s) eqn:A.
  - rewrite (drop_while_all _ _ A). reflexivity.
  - destruct (drop_while is_space s) as [|x d] eqn:D.
    + apply drop_while_nil_all in D. congruence.
    + pose proof (drop_while_head_stop is_space s) as H. rewrite D in H.
      destruct (drop_while is_space (List.rev (x :: d))) as [|y r] eqn:R.
      * apply drop_while_nil_all in R. rewrite forallb_rev_iff in R.
        cbn in R. rewrite H in R. discriminate.
      * destruct (List.rev (y :: r)) eqn:V; [|reflexivity].
        apply (f_equal (@List.length N)) in V. rewrite length_rev in V. discriminate.
Qed.

Lemma is_blank_str s : is_blank (VStr s) = Normal (forallb is_space s).
Proof.
  unfold is_blank. destruct s as [|x s]; [reflexivity|].
  cbn [truthy negb]. rewrite trim_blank. reflexivity.
Qed.

Lemma validateField_email e fd :
  validateField f_email (VStr e) fd
  = Normal (if forallb is_space e then Some msg_email_required
            else if isValidEmail e then None else Some msg_email_pattern).
Proof.
  unfold validateField.
  change (rules f_email) with
    (Some {| required := Some msg_email_required; minLength := None;
             minLengthMessage := None; pattern := Some isValidEmail;
             patternMessage := Some msg_email_pattern;
             match_ := None; matchMessage := None |}).
  cbn [required minLength minLengthMessage pattern patternMessage match_ matchMessage].
  change (has_text (Some msg_email_required)) with true. cbv iota.
  rewrite is_blank_str. cbn [bind].
  destruct (forallb is_space e); [reflexivity|]. cbn [bind].
  destruct (isValidEmail e); reflexivity.
Qed.

Lemma validateField_minLength f req m msg v fd :
  rules f = Some {| required := Some req; minLength := Some m;
                    minLengthMessage := Some msg; pattern := None;
                    patternMessage := None; match_ := None; matchMessage := None |} ->
  has_text (Some req) = true -> (m <> 0)%Z ->
  validateField f (VStr v) fd
  = Normal (if forallb is_space v then Some req
            else if (Z.of_nat (List.length v) <? m)%Z then Some msg else None).
Proof.
  intros R Hreq Hm. unfold validateField. rewrite R.
  cbn [required minLength minLengthMessage pattern patternMessage match_ matchMessage].
  rewrite Hreq, is_blank_str. cbn [bind].
  destruct (forallb is_space v); [reflexivity|]. cbn [bind].
  destruct (Z.eqb_spec m 0); [contradiction|]. cbn [negb andb].
  destruct (Z.of_nat (List.length v) <? m)%Z; reflexivity.
Qed.

Lemma validateField_password p fd :
  validateField f_password (VStr p) fd
  = Normal (if forallb is_space p then Some msg_password_required
            else if (Z.of_nat (List.length p) <? 6)%Z then Some msg_password_minLength
            else None).
Proof. apply validateField_minLength; [reflexivity | reflexivity | lia]. Qed.

Lemma validateField_name n fd :
  validateField f_name (VStr n) fd
  = Normal (if forallb is_space n then Some msg_name_required
            else if (Z.of_nat (List.length n) <? 2)%Z then Some msg_name_minLength
            else None).
Proof. apply validateField_minLength; [reflexivity | reflexivity | lia]. Qed.

Lemma validateField_confirm c fd :
  validateField f_confirmPassword (VStr c) fd
  = Normal (if forallb is_space c then Some msg_confirm_required
            else if strict_neq (get_prop f_password fd) (VStr c)
            then Some msg_confirm_match else None).
Proof.
  unfold validateField.
  change (rules f_confirmPassword) with
    (Some {| required := Some msg_confirm_required; minLength := None;
             minLengthMessage := None; pattern := None; patternMessage := None;
             match_ := Some f_password; matchMessage := Some msg_confirm_match |}).
  cbn [required minLength minLengthMessage pattern patternMessage match_ matchMessage].
  change (has_text (Some msg_confirm_required)) with true. cbv iota.
  rewrite is_blank_str. cbn [bind].
  destruct (forallb is_space c); [reflexivity|]. cbn [bind].
  change (has_text (Some f_password)) with true. cbn [andb].
  destruct (strict_neq (get_prop f_password fd) (VStr c)); reflexivity.
Qed.

Lemma str_eqb_eq a : forall b, str_eqb a b = true <-> a = b.
Proof.
  induction a as [|x a IH]; destruct b as [|y b]; cbn; split; try congruence; auto.
  - intros H. apply andb_true_iff in H. destruct H as [H1 H2].
    apply N.eqb_eq in H1. apply IH in H2. congruence.
  - intros [= -> ->]. rewrite N.eqb_refl. apply IH. reflexivity.
Qed.

(** A valid address is not blank. *)
Lemma valid_email_not_blank e : isValidEmail e = true -> forallb is_space e = false.
Proof.
  intros H. apply isValidEmail_iff in H.
  destruct H as [l [d [t [-> [Hl [_ [_ [Fl _]]]]]]]].
  destruct l as [|x l]; [congruence|]. cbn in *.
  apply andb_true_iff in Fl. destruct Fl as [Fx _].
  unfold not_space_at in Fx. apply negb_true_iff in Fx.
  apply orb_false_iff in Fx. destruct Fx as [-> _]. reflexivity.
Qed.

Lemma obj_set_not_nil errors k v : obj_set errors k v <> [].
Proof.
  destruct errors as [|[k' v'] rest]; cbn; [discriminate|].
  destruct (str_eqb k' k); discriminate.
Qed.

(** When no field makes [validateField] throw, [validateForm] returns, and
    it returns the empty object exactly when it started from the empty
    object and every field validated to no message. *)
Lemma validateForm_from_char fd : forall fields errors,
  (forall f, In f fields -> exists o, validateField f (get_prop f fd) fd = Normal o) ->
  (exists r, validateForm_from errors fd fields = Normal r)
  /\ (validateForm_from errors fd fields = Normal [] <->
      errors = []
      /\ forall f, In f fields ->
           exists o, validateField f (get_prop f fd) fd = Normal o /\ has_text o = false).
Proof.
  induction fields as [|f fields IH]; intros errors H; cbn [validateForm_from].
  - split; [eauto|]. split.
    + intros [= ->]. split; [reflexivity | intros f []].
    + intros [-> _]. reflexivity.
  - destruct (H f (or_introl eq_refl)) as [o Ho]. rewrite Ho. cbn [bind].
    assert (H' : forall g, In g fields ->
                   exists o', validateField g (get_prop g fd) fd = Normal o')
      by (intros g Hg; apply H; right; exact Hg).
    destruct o as [[|c m]|].
    + destruct (IH errors H') as [R I]. split; [exact R|].
      rewrite I. split.
      * intros [-> A]. split; [reflexivity|]. intros g [<- | Hg]; [eauto | auto].
      * intros [-> A]. split; [reflexivity|]. intros g Hg. apply A. right. exact Hg.
    + destruct (IH (obj_set errors f (c :: m)) H') as [R I]. split; [exact R|].
      rewrite I. split.
      * intros [E _]. exfalso. exact (obj_set_not_nil _ _ _ E).
      * intros [_ A]. exfalso. destruct (A f (or_introl eq_refl)) as [o [E1 E2]].
        rewrite Ho in E1. injection E1 as <-. discriminate.
    + destruct (IH errors H') as [R I]. split; [exact R|].
      rewrite I. split.
      * intros [-> A]. split; [reflexivity|]. intros g [<- | Hg]; [eauto | auto].
      * intros [-> A]. split; [reflexivity|]. intros g Hg. apply A. right. exact Hg.
Qed.

Lemma no_message_email e :
  has_text (if forallb is_space e then Some msg_email_required
            else if isValidEmail e then None else Some msg_email_pattern) = false
  <-> isValidEmail e = true.
Proof.
  pose proof (valid_email_not_blank e) as V.
  destruct (forallb is_space e); destruct (isValidEmail e); cbn;
    split; intros H; try reflexivity; try discriminate.
  specialize (V eq_refl). discriminate.
Qed.

Lemma no_message_minLength (v req msg : jsstring) (m : nat) :
  has_text (Some req) = true -> has_text (Some msg) = true ->
  (has_text (if forallb is_space v then Some req
             else if (Z.of_nat (List.length v) <? Z.of_nat m)%Z then Some msg
             else None) = false
   <-> forallb is_space v = false /\ (m <= List.length v)%nat).
Proof.
  intros Hr Hm. destruct (forallb is_space v).
  - rewrite Hr. split; [discriminate | intros [H _]; discriminate].
  - destruct (Z.ltb_spec (Z.of_nat (List.length v)) (Z.of_nat m)).
    + rewrite Hm. split; [discriminate | intros [_ H']; lia].
    + split; [intros _; split; [reflexivity | lia] | reflexivity].
Qed.

(** [validateLogin] never throws on the two strings of the login form, and
    it returns no error exactly when the address is well formed and the
    password is not blank and has six code units or more. *)
Theorem validateLogin_accepts e p :
  (exists errors, validateLogin (login_form e p) = Normal errors)
  /\ (validateLogin (login_form e p) = Normal [] <->
      isValidEmail e = true
      /\ forallb is_space p = false
      /\ (6 <= List.length p)%nat).
Proof.
  assert (T : forall f, In f [f_email; f_password] ->
                exists o, validateField f (get_prop f (login_form e p)) (login_form e p)
                          = Normal o).
  { intros f [<- | [<- | []]].
    - change (get_prop f_email (login_form e p)) with (VStr e).
      rewrite validateField_email. eauto.
    - change (get_prop f_password (login_form e p)) with (VStr p).
      rewrite validateField_password. eauto. }
  destruct (validateForm_from_char (login_form e p) _ [] T) as [R I].
  split; [exact R|]. unfold validateLogin, validateForm. rewrite I. split.
  - intros [_ A].
    destruct (A f_email (or_introl eq_refl)) as [o1 [E1 N1]].
    destruct (A f_password (or_intror (or_introl eq_refl))) as [o2 [E2 N2]].
    change (get_prop f_email (login_form e p)) with (VStr e) in E1.
    change (get_prop f_password (login_form e p)) with (VStr p) in E2.
    rewrite validateField_email in E1. rewrite validateField_password in E2.
    injection E1 as <-. injection E2 as <-.
    apply no_message_email in N1.
    apply (no_message_minLength p msg_password_required msg_password_minLength 6 eq_refl eq_refl) in N2. tauto.
  - intros [V [B L]]. split; [reflexivity|].
    intros f [<- | [<- | []]].
    + change (get_prop f_email (login_form e p)) with (VStr e).
      rewrite validateField_email. eexists. split; [reflexivity|].
      apply no_message_email, V.
    + change (get_prop f_password (login_form e p)) with (VStr p).
      rewrite validateField_password. eexists. split; [reflexivity|].
      apply (no_message_minLength p msg_password_required msg_password_minLength 6 eq_refl eq_refl). tauto.
Qed.

(** The object that [validateLogin] returns: at most one message per
    field, the address first; a blank value gets the "required" message
    before any other check. *)
Theorem validateLogin_errors e p :
  validateLogin (login_form e p)
  = Normal
      ((if forallb is_space e then [(f_email, msg_email_required)]
        else if isValidEmail e then [] else [(f_email, msg_email_pattern)])
       ++ (if forallb is_space p then [(f_password, msg_password_required)]
           else if (Z.of_nat (List.length p) <? 6)%Z
                then [(f_password, msg_password_minLength)] else [])).
Proof.
  unfold validateLogin, validateForm. cbn [validateForm_from].
  change (get_prop f_email (login_form e p)) with (VStr e).
  change (get_prop f_password (login_form e p)) with (VStr p).
  rewrite validateField_email, validateField_password. cbn [bind].
  destruct (forallb is_space e); [|destruct (isValidEmail e)];
    (destruct (forallb is_space p);
     [|destruct (Z.of_nat (List.length p) <? 6)%Z]); reflexivity.
Qed.

(** [validateRegister] never throws on the four strings of the register
    form, and it returns no error exactly when the name is not blank and
    has two code units or more, the address is well formed, the password is
    not blank and has six or more, and the confirmation is the password. *)
Theorem validateRegister_accepts n e p c :
  (exists errors, validateRegister (register_form n e p c) = Normal errors)
  /\ (validateRegister (register_form n e p c) = Normal [] <->
      (forallb is_space n = false /\ (2 <= List.length n)%nat)
      /\ isValidEmail e = true
      /\ (forallb is_space p = false /\ (6 <= List.length p)%nat)
      /\ c = p).
Proof.
  set (fd := register_form n e p c).
  assert (Gn : get_prop f_name fd = VStr n) by reflexivity.
  assert (Ge : get_prop f_email fd = VStr e) by reflexivity.
  assert (Gp : get_prop f_password fd = VStr p) by reflexivity.
  assert (Gc : get_prop f_confirmPassword fd = VStr c) by reflexivity.
  assert (T : forall f, In f [f_name; f_email; f_password; f_confirmPassword] ->
                exists o, validateField f (get_prop f fd) fd = Normal o).
  { intros f [<- | [<- | [<- | [<- | []]]]].
    - rewrite Gn, validateField_name. eauto.
    - rewrite Ge, validateField_email. eauto.
    - rewrite Gp, validateField_password. eauto.
    - rewrite Gc, validateField_confirm. eauto. }
  destruct (validateForm_from_char fd _ [] T) as [R I].
  split; [exact R|]. unfold validateRegister, validateForm. rewrite I.
  assert (Cf : has_text (if forallb is_space c then Some msg_confirm_required
                         else if strict_neq (get_prop f_password fd) (VStr c)
                              then Some msg_confirm_match else None) = false
               <-> forallb is_space c = false /\ p = c).
  { rewrite Gp. cbn [strict_neq]. destruct (forallb is_space c).
    - split; [discriminate | intros [H _]; discriminate].
    - destruct (str_eqb p c) eqn:E; cbn.
      + apply str_eqb_eq in E. tauto.
      + split; [discriminate|]. intros [_ H]. apply str_eqb_eq in H. congruence. }
  split.
  - intros [_ A].
    destruct (A f_name (or_introl eq_refl)) as [o1 [E1 N1]].
    destruct (A f_email (or_intror (or_introl eq_refl))) as [o2 [E2 N2]].
    destruct (A f_password (or_intror (or_intror (or_introl eq_refl)))) as [o3 [E3 N3]].
    destruct (A f_confirmPassword
                (or_intror (or_intror (or_intror (or_introl eq_refl))))) as [o4 [E4 N4]].
    rewrite Gn, validateField_name in E1. rewrite Ge, validateField_email in E2.
    rewrite Gp, validateField_password in E3. rewrite Gc, validateField_confirm in E4.
    injection E1 as <-. injection E2 as <-. injection E3 as <-. injection E4 as <-.
    apply (no_message_minLength n msg_name_required msg_name_minLength 2 eq_refl eq_refl) in N1.
    apply no_message_email in N2.
    apply (no_message_minLength p msg_password_required msg_password_minLength 6 eq_refl eq_refl) in N3.
    apply Cf in N4. destruct N4 as [_ ->]. tauto.
  - intros [Hn [He [Hp ->]]]. split; [reflexivity|].
    intros f [<- | [<- | [<- | [<- | []]]]].
    + rewrite Gn, validateField_name. eexists. split; [reflexivity|].
      apply (no_message_minLength n msg_name_required msg_name_minLength 2 eq_refl eq_refl). exact Hn.
    + rewrite Ge, validateField_email. eexists. split; [reflexivity|].
      apply no_message_email, He.
    + rewrite Gp, validateField_password. eexists. split; [reflexivity|].
      apply (no_message_minLength p msg_password_required msg_password_minLength 6 eq_refl eq_refl). exact Hp.
    + rewrite Gc, validateField_confirm. eexists. split; [reflexivity|].
      apply Cf. tauto.
Qed.

(** A one-class pattern is found somewhere exactly when some code unit is
    in the class. *)
Lemma test_class p s : test (RChar p) s = existsb p s.
Proof.
  unfold test. induction s as [|x s IH]; [reflexivity|].
  cbn [exec existsb]. unfold match_here at 1. cbn [rmatch].
  destruct (p x); [reflexivity | exact IH].
Qed.

Lemma check_score ok hint r :
  score (check ok hint r) = (score r + b2z ok)%Z
  /\ (Z.of_nat (List.length (feedback (check ok hint r)))
      = Z.of_nat (List.length (feedback r)) + (1 - b2z ok))%Z.
Proof.
  unfold check. destruct ok; cbn [score feedback b2z]; split; try lia.
  rewrite length_app. cbn [List.length]. lia.
Qed.

(** The score of a non-empty password counts the five criteria it meets
    (length, digit, lower case, upper case, special character), every
    criterion it misses leaves one message, and it is strong from a score
    of 3; the empty password has score 0, no message and is not strong. *)
Theorem password_strength_score pw :
  match pw with
  | [] =>
      score (validatePasswordStrength pw) = 0%Z
      /\ feedback (validatePasswordStrength pw) = []
      /\ isStrong (validatePasswordStrength pw) = false
  | _ :: _ =>
      score (validatePasswordStrength pw)
      = (b2z (6 <=? Z.of_nat (List.length pw))%Z + b2z (existsb is_digit pw)
         + b2z (existsb is_lower pw) + b2z (existsb is_upper pw)
         + b2z (existsb is_special pw))%Z
      /\ (score (validatePasswordStrength pw)
          + Z.of_nat (List.length (feedback (validatePasswordStrength pw))) = 5)%Z
      /\ isStrong (validatePasswordStrength pw)
         = (3 <=? score (validatePasswordStrength pw))%Z
  end.
Proof.
  destruct pw as [|x pw]; [repeat split|].
  unfold validatePasswordStrength. cbv beta iota zeta. rewrite !test_class.
  destruct (6 <=? Z.of_nat (List.length (x :: pw)))%Z,
           (existsb is_digit (x :: pw)), (existsb is_lower (x :: pw)),
           (existsb is_upper (x :: pw)), (existsb is_special (x :: pw));
    cbn; repeat split; reflexivity.
Qed.

(** A strong password shows at least two kinds of characters; six or more
    characters of two kinds are enough, and so are three kinds at any
    length. *)
Theorem password_strength_kinds pw :
  (isStrong (validatePasswordStrength pw) = true ->
   (2 <= b2z (existsb is_digit pw) + b2z (existsb is_lower pw)
         + b2z (existsb is_upper pw) + b2z (existsb is_special pw))%Z)
  /\ ((6 <= List.length pw)%nat ->
      (2 <= b2z (existsb is_digit pw) + b2z (existsb is_lower pw)
            + b2z (existsb is_upper pw) + b2z (existsb is_special pw))%Z ->
      isStrong (validatePasswordStrength pw) = true)
  /\ ((3 <= b2z (existsb is_digit pw) + b2z (existsb is_lower pw)
            + b2z (existsb is_upper pw) + b2z (existsb is_special pw))%Z ->
      isStrong (validatePasswordStrength pw) = true).
Proof.
  pose proof (password_strength_score pw) as H.
  destruct pw as [|x pw].
  - destruct H as [_ [_ ->]]. cbn. repeat split; intros; try discriminate; lia.
  - destruct H as [S [_ ->]]. rewrite S.
    assert (L : (6 <= List.length (x :: pw))%nat ->
                b2z (6 <=? Z.of_nat (List.length (x :: pw)))%Z = 1%Z).
    { intros L. destruct (Z.leb_spec 6 (Z.of_nat (List.length (x :: pw))));
        [reflexivity | lia]. }
    assert (B : (0 <= b2z (6 <=? Z.of_nat (List.length (x :: pw)))%Z <= 1)%Z)
      by (destruct (6 <=? _)%Z; cbn; lia).
    repeat split.
    + intros T. apply Z.leb_le in T. lia.
    + intros L6 K. apply Z.leb_le. rewrite (L L6). lia.
    + intros K. apply Z.leb_le. lia.
Qed.

(** *** sanitizeInput *)

Lemma firstn_In {A} n (l : list A) x : In x (firstn n l) -> In x l.
Proof.
  revert l. induction n as [|n IH]; intros [|y l]; cbn; try tauto.
  intros [H | H]; [left; exact H | right; apply IH, H].
Qed.

Lemma filter_all {A} (f : A -> bool) l : forallb f l = true -> filter f l = l.
Proof.
  induction l as [|x l IH]; [reflexivity|]. cbn. intros H.
  apply andb_true_iff in H. destruct H as [-> H]. rewrite IH; auto.
Qed.

(** The result of [sanitizeInput] has at most 255 code units, none of them
    an angle bracket, and is never longer than the input; a value that is
    not a string gives the empty string; a trimmed string without angle
    brackets of at most 255 code units comes back as it is. *)
Theorem sanitizeInput_safe :
  (forall v, (List.length (sanitizeInput v) <= 255)%nat
             /\ ~ In 60%N (sanitizeInput v) /\ ~ In 62%N (sanitizeInput v))
  /\ (forall s, (List.length (sanitizeInput (VStr s)) <= List.length s)%nat)
  /\ (forall v, (forall s, v <> VStr s) -> sanitizeInput v = [])
  /\ (forall s,
         trim s = s ->
         forallb (fun c => negb (N.eqb c 60 || N.eqb c 62)) s = true ->
         (List.length s <= 255)%nat ->
         sanitizeInput (VStr s) = s).
Proof.
  split; [|split; [|split]].
  - intros v. destruct v as [| | b | n | s]; cbn [sanitizeInput List.length In];
      try (split; [lia | tauto]).
    split; [rewrite length_firstn; lia|].
    split; intros H; apply firstn_In in H; apply filter_In in H;
      destruct H as [_ H]; discriminate.
  - intros s. cbn [sanitizeInput]. rewrite length_firstn.
    pose proof (filter_length_le (fun c => negb (N.eqb c 60 || N.eqb c 62)) (trim s)).
    assert (List.length (trim s) <= List.length s)%nat.
    { unfold trim. rewrite length_rev.
      pose proof (length_drop_while is_space (List.rev (drop_while is_space s))).
      pose proof (length_drop_while is_space s).
      rewrite length_rev in *. lia. }
    lia.
  - intros v H. destruct v; try reflexivity. exfalso. exact (H s eq_refl).
  - intros s T F L. cbn [sanitizeInput]. rewrite T, (filter_all _ _ F).
    apply firstn_all2. exact L.
Qed.

(** The code units the table replaces, and the others. *)
Lemma html_entity_cases c :
  (c = 38 /\ html_entity c = Some (lit "&amp;"))%N
  \/ (c = 60 /\ html_entity c = Some (lit "&lt;"))%N
  \/ (c = 62 /\ html_entity c = Some (lit "&gt;"))%N
  \/ (c = 34 /\ html_entity c = Some (lit "&quot;"))%N
  \/ (c = 39 /\ html_entity c = Some (lit "&#039;"))%N
  \/ (html_entity c = None /\ c <> 38 /\ c <> 60 /\ c <> 62 /\ c <> 34 /\ c <> 39)%N.
Proof.
  unfold html_entity.
  destruct (N.eqb_spec c 38); [tauto|].
  destruct (N.eqb_spec c 60); [tauto|].
  destruct (N.eqb_spec c 62); [tauto|].
  destruct (N.eqb_spec c 34); [tauto|].
  destruct (N.eqb_spec c 39); [tauto|].
  right; right; right; right; right. tauto.
Qed.

Lemma escapeHtml_cons c t : escapeHtml (c :: t) = escape_unit c ++ escapeHtml t.
Proof. reflexivity. Qed.

(** The replacements form a prefix code. *)
Lemma escape_unit_prefix_free x y r1 r2 :
  escape_unit x ++ r1 = escape_unit y ++ r2 -> x = y /\ r1 = r2.
Proof.
  unfold escape_unit.
  destruct (html_entity_cases x) as [[-> ->]|[[-> ->]|[[-> ->]|[[-> ->]|[[-> ->]|[-> Hx]]]]]];
  destruct (html_entity_cases y) as [[-> ->]|[[-> ->]|[[-> ->]|[[-> ->]|[[-> ->]|[-> Hy]]]]]];
    cbn; intros H; try (injection H; intros; subst; auto; fail);
    try discriminate H;
    try (injection H; intros; subst; exfalso; tauto).
Qed.

(** [escapeHtml] loses nothing: two texts with the same escaped form are
    the same text. *)
Theorem escapeHtml_injective a : forall b, escapeHtml a = escapeHtml b -> a = b.
Proof.
  induction a as [|x a IH]; intros [|y b] H.
  - reflexivity.
  - rewrite escapeHtml_cons in H. unfold escape_unit in H.
    destruct (html_entity_cases y) as [[_ E]|[[_ E]|[[_ E]|[[_ E]|[[_ E]|[E _]]]]]];
      rewrite E in H; discriminate.
  - rewrite escapeHtml_cons in H. unfold escape_unit in H.
    destruct (html_entity_cases x) as [[_ E]|[[_ E]|[[_ E]|[[_ E]|[[_ E]|[E _]]]]]];
      rewrite E in H; discriminate.
  - rewrite !escapeHtml_cons in H. apply escape_unit_prefix_free in H.
    destruct H as [-> H]. f_equal. apply IH, H.
Qed.

Lemma escape_unit_safe c : forallb html_safe (escape_unit c) = true.
Proof.
  unfold escape_unit.
  destruct (html_entity_cases c) as [[-> ->]|[[-> ->]|[[-> ->]|[[-> ->]|[[-> ->]|[-> Hc]]]]]];
    try reflexivity.
  cbn. unfold html_safe. rewrite andb_true_r. apply negb_true_iff.
  repeat (apply orb_false_iff; split); apply N.eqb_neq; tauto.
Qed.

Lemma escape_unit_length c :
  (if html_plain c then List.length (escape_unit c) = 1
   else 1 < List.length (escape_unit c))%nat.
Proof.
  unfold escape_unit, html_plain.
  destruct (html_entity_cases c) as [[-> ->]|[[-> ->]|[[-> ->]|[[-> ->]|[[-> ->]|[-> Hc]]]]]];
    cbn; lia.
Qed.

Lemma escapeHtml_length t :
  (List.length t <= List.length (escapeHtml t))%nat
  /\ (List.length (escapeHtml t) = List.length t -> forallb html_plain t = true).
Proof.
  induction t as [|c t [IH1 IH2]]; [cbn; auto|].
  rewrite escapeHtml_cons, length_app. cbn [List.length forallb].
  pose proof (escape_unit_length c) as L.
  destruct (html_plain c); cbn [andb]; split; try lia.
  intros H. apply IH2. lia.
Qed.

(** The escaped text holds no angle bracket and no quote, is never shorter
    than the text, and is the text itself exactly when the text holds none
    of the five special characters. *)
Theorem escapeHtml_safe text :
  forallb html_safe (escapeHtml text) = true
  /\ (List.length text <= List.length (escapeHtml text))%nat
  /\ (escapeHtml text = text <-> forallb html_plain text = true).
Proof.
  split; [|split].
  - induction text as [|c t IH]; [reflexivity|].
    rewrite escapeHtml_cons, forallb_app, escape_unit_safe, IH. reflexivity.
  - apply escapeHtml_length.
  - split.
    + intros H. apply escapeHtml_length. rewrite H. reflexivity.
    + induction text as [|c t IH]; [reflexivity|]. cbn [forallb].
      intros H. apply andb_true_iff in H. destruct H as [Hc Ht].
      rewrite escapeHtml_cons, (IH Ht). unfold escape_unit.
      unfold html_plain in Hc. destruct (html_entity c); [discriminate | reflexivity].
Qed.


(* ================================================================== *)
(** ** Worked instances *)
(* ================================================================== *)

(** Two calls 2 s apart on a fresh object: the first sends the pair of
    requests, the second does not. *)
Lemma throttle_exclusivity_witness :
  trace decimal_StringToNumber {| app := new_App; suspended := 0 |}
        [CallFetchPoints 10000 (Some demo_correo);
         CallFetchPoints 12000 (Some demo_correo)]
  = [[Fetch (GetPuntos demo_correo); Fetch (GetPuntosAcumulados demo_correo)]; []]
  /\ (issues_request [Fetch (GetPuntos demo_correo);
                      Fetch (GetPuntosAcumulados demo_correo)] = false
      \/ issues_request [] = false).
Proof.
  split; [reflexivity|].
  apply (proj1 (throttle_exclusivity decimal_StringToNumber)
               {| app := new_App; suspended := 0 |}
               [CallFetchPoints 10000 (Some demo_correo);
                CallFetchPoints 12000 (Some demo_correo)]
               0%nat 1%nat 10000%Z (Some demo_correo) 12000%Z (Some demo_correo)).
  - lia.
  - reflexivity.
  - reflexivity.
  - reflexivity.
  - reflexivity.
  - simpl. lia.
Defined.

(** The balance read is not JSON: 120 and 340 stay. *)
Lemma keep_last_known_good_witness :
  points_read_fails (PointsFulfilled (Response None) (Response (Some BodyNull))) = true
  /\ userPoints
       (fst (fst (fetchPoints_resume decimal_StringToNumber
                    (PointsFulfilled (Response None) (Response (Some BodyNull)))
                    demo_App)))
     = JInt 120
  /\ serverHistory
       (fst (fst (loadHistory_resume decimal_StringToNumber epoch_Date_parse
                    epoch_toLocaleString (HistoryFulfilled (Some HistOther)) demo_App)))
     = [demo_entry].
Proof.
  split; [reflexivity|]. split.
  - exact (proj1 (proj1 (keep_last_known_good decimal_StringToNumber epoch_Date_parse
                           epoch_toLocaleString)
                        (PointsFulfilled (Response None) (Response (Some BodyNull)))
                        demo_App eq_refl)).
  - exact (proj1 (proj2 (keep_last_known_good decimal_StringToNumber epoch_Date_parse
                           epoch_toLocaleString)
                        (HistoryFulfilled (Some HistOther)) demo_App eq_refl)).
Defined.

(** A balance body without the field and a total of 340. *)
Lemma coercion_of_missing_fields_witness :
  opt_prop (BodyObject [(lit "detail", VStr (lit "Not Found"))]) str_puntos = VUndefined
  /\ userPoints
       (fst (fst (fetchPoints_resume decimal_StringToNumber
                    (PointsFulfilled
                       (Response (Some (BodyObject [(lit "detail", VStr (lit "Not Found"))])))
                       (Response (Some (BodyObject [(str_puntos_acumulados, VNum (JInt 340))]))))
                    demo_App)))
     = JInt 0.
Proof.
  split; [reflexivity|].
  apply (proj1 (proj2 (proj2
           (coercion_of_missing_fields decimal_StringToNumber
              (BodyObject [(lit "detail", VStr (lit "Not Found"))])
              (BodyObject [(str_puntos_acumulados, VNum (JInt 340))])
              demo_App)))).
  left. reflexivity.
Defined.

(** C6, as stated, fails: the balance response carries [true] and the
    total response carries the text "abc"; the fetch succeeds and the
    local fields become 1 and NaN, not 0. *)
Lemma coercion_counterexample :
  snd (fetchPoints_resume decimal_StringToNumber
         (PointsFulfilled
            (Response (Some (BodyObject [(str_puntos, VBool true)])))
            (Response (Some (BodyObject [(str_puntos_acumulados, VStr (lit "abc"))]))))
         demo_App)
  = Normal tt
  /\ userPoints
       (fst (fst (fetchPoints_resume decimal_StringToNumber
                    (PointsFulfilled
                       (Response (Some (BodyObject [(str_puntos, VBool true)])))
                       (Response (Some (BodyObject
                                          [(str_puntos_acumulados, VStr (lit "abc"))]))))
                    demo_App)))
     = JInt 1
  /\ userPointsTotal
       (fst (fst (fetchPoints_resume decimal_StringToNumber
                    (PointsFulfilled
                       (Response (Some (BodyObject [(str_puntos, VBool true)])))
                       (Response (Some (BodyObject
                                          [(str_puntos_acumulados, VStr (lit "abc"))]))))
                    demo_App)))
     = JNaN
  /\ JInt 1 <> JInt 0 /\ JNaN <> JInt 0.
Proof.
  repeat split; try reflexivity; discriminate.
Qed.

(** A call while a fetch is in flight returns with the object unchanged. *)
Lemma gate_release_witness :
  _fetchingPoints (set_fetchingPoints true demo_App) = true
  /\ fetchPoints_begin 20000 (Some demo_correo) (set_fetchingPoints true demo_App)
     = (set_fetchingPoints true demo_App, [], Returned)
  /\ gate_consistent
       (run decimal_StringToNumber {| app := new_App; suspended := 0 |}
            [CallFetchPoints 10000 (Some demo_correo);
             SettleFetchPoints PointsRejected]).
Proof.
  split; [reflexivity|]. split.
  - apply (proj1 (proj2 (proj2 (proj2 (gate_release decimal_StringToNumber))))).
    reflexivity.
  - apply (proj2 (proj2 (proj2 (proj2 (gate_release decimal_StringToNumber))))).
    right. split; reflexivity.
Defined.

(** C8, as stated, fails: on a fresh object a first call at 10000 ms
    passes the gate; a second call 1 ms later, while the first is in
    flight, returns early as a no-op and ends with [_fetchingPoints] true. *)
Lemma gate_held_at_early_return :
  fetchPoints_begin 10000 (Some demo_correo) new_App
  = (set_lastPointsFetch 10000 (set_fetchingPoints true new_App),
     [Fetch (GetPuntos demo_correo); Fetch (GetPuntosAcumulados demo_correo)],
     Awaiting)
  /\ fetchPoints_begin 10001 (Some demo_correo)
       (set_lastPointsFetch 10000 (set_fetchingPoints true new_App))
     = (set_lastPointsFetch 10000 (set_fetchingPoints true new_App), [], Returned)
  /\ _fetchingPoints
       (fst (fst (fetchPoints_begin 10001 (Some demo_correo)
                    (set_lastPointsFetch 10000 (set_fetchingPoints true new_App)))))
     = true
  /\ true <> false.
Proof.
  repeat split; try reflexivity; discriminate.
Qed.

(** A balance of 120 against a reward that costs 150. *)
Lemma redemption_guard_witness :
  num_lt (userPoints demo_App) (ToNumber decimal_StringToNumber (Reward.points demo_reward))
  = true
  /\ claimReward_begin decimal_StringToNumber (JInt 1) (Some demo_correo) demo_App
     = (demo_App, [], Returned).
Proof.
  split; [reflexivity|].
  apply (redemption_guard decimal_StringToNumber (JInt 1) (Some demo_correo) demo_App).
  right. exists demo_reward. split; [reflexivity|]. right. reflexivity.
Defined.

(** No identifier at 10000 ms, an identifier 1 s later. *)
Lemma unauthenticated_noop_frame_witness :
  fetchPoints_begin 10000 None demo_App = (demo_App, [], Returned)
  /\ fetchPoints_begin 11000 (Some demo_correo)
       (fst (fst (fetchPoints_begin 10000 None demo_App)))
     = (set_lastPointsFetch 11000 (set_fetchingPoints true demo_App),
        [Fetch (GetPuntos demo_correo); Fetch (GetPuntosAcumulados demo_correo)],
        Awaiting).
Proof.
  assert (H := unauthenticated_noop_frame 10000 None demo_App eq_refl
                 ltac:(simpl; lia) eq_refl).
  split; [exact (proj1 H)|].
  apply (proj2 H 11000%Z demo_correo); [lia | reflexivity].
Defined.

(** A first payload with an earn entry, a second with a redeem entry. *)
Lemma history_replace_not_merge_witness :
  serverHistory
    (fst (fst (loadHistory_resume decimal_StringToNumber epoch_Date_parse
                 epoch_toLocaleString
                 (HistoryFulfilled (Some (HistArray [item_canje])))
                 (fst (fst (loadHistory_resume decimal_StringToNumber epoch_Date_parse
                              epoch_toLocaleString
                              (HistoryFulfilled (Some (HistArray [item_escaneo VNull])))
                              demo_App))))))
  = [ {| Entry.accion := VStr (lit "canje");
         Entry.detalle := VStr (lit "Gast" ++ [o_acute] ++ lit " 150 pts por: Entrada cine");
         Entry.badge := lit "-150"; Entry.delta := JInt (-150);
         Entry.fecha := lit "Ahora" |} ].
Proof.
  refine (eq_trans
            (proj1 (history_replace_not_merge decimal_StringToNumber epoch_Date_parse
                      epoch_toLocaleString demo_App
                      (HistArray [item_escaneo VNull]) (HistArray [item_canje])
                      _ _ eq_refl eq_refl)) _).
  reflexivity.
Defined.

(** An earn text within the exact range, and one beyond it: the digits
    9007199254740993 are read as the double 9007199254740992. *)
Lemma delta_parsing_witness :
  parseDeltaFromDetalle (VStr (lit "escaneo")) (VStr (lit "+12 puntos"))
  = Normal (JInt 12).
Proof.
  apply (proj1 (proj2 delta_parsing) (VStr (lit "escaneo")) (lit "+12 puntos")).
  vm_compute. discriminate.
Defined.

Lemma delta_rounded_beyond_two53 :
  parseDeltaFromDetalle (VStr (lit "escaneo")) (VStr (lit "+9007199254740993 puntos"))
  = Normal (JInt 9007199254740992)
  /\ Spec.delta (Spec.kind_of (VStr (lit "escaneo"))) (lit "+9007199254740993 puntos")
     = 9007199254740993%Z
  /\ JInt 9007199254740992 <> JInt 9007199254740993.
Proof.
  split; [vm_compute; reflexivity|]. split; [vm_compute; reflexivity|]. discriminate.
Defined.

(** The sample object holds a balance of 120; the balance read is answered
    404 with an error object, the total read with 340. *)
Lemma http_error_overwrites_balance_witness :
  userPoints demo_App = JInt 120
  /\ userPoints
       (fst (fst (fetchPoints_resume decimal_StringToNumber
                    (PointsFulfilled
                       (error_response (lit "Usuario no encontrado"))
                       (Response (Some (BodyObject [(str_puntos_acumulados,
                                                     VNum (JInt 340))]))))
                    demo_App)))
     = JInt 0.
Proof.
  split; [reflexivity|].
  exact (proj1 (http_error_overwrites_balance decimal_StringToNumber
                  (lit "Usuario no encontrado") [] BodyNull
                  (BodyObject [(str_puntos_acumulados, VNum (JInt 340))]) demo_App)).
Defined.


(** A dated earn entry followed by an undated redeem entry. *)
Lemma sentinel_not_moved_ahead_witness :
  exists e1 e2,
    history_entry decimal_StringToNumber epoch_Date_parse epoch_toLocaleString
      (Item (VStr (lit "escaneo")) (VStr (lit "+5 puntos por reciclaje"))
            (VStr (lit "1704103200000"))) = Normal e1
    /\ history_entry decimal_StringToNumber epoch_Date_parse epoch_toLocaleString
         (Item (VStr (lit "canje")) (VStr (lit "sin fecha")) VUndefined) = Normal e2
    /\ Entry.fecha e1 = epoch_toLocaleString 1704103200000
    /\ Entry.fecha e2 = str_Ahora
    /\ serverHistory
         (fst (fst (loadHistory_resume decimal_StringToNumber epoch_Date_parse
                      epoch_toLocaleString
                      (HistoryFulfilled
                         (Some (HistArray
                                  [Item (VStr (lit "escaneo"))
                                        (VStr (lit "+5 puntos por reciclaje"))
                                        (VStr (lit "1704103200000"));
                                   Item (VStr (lit "canje")) (VStr (lit "sin fecha"))
                                        VUndefined])))
                      demo_App)))
       = [e1; e2].
Proof.
  apply (sentinel_not_moved_ahead decimal_StringToNumber epoch_Date_parse
           epoch_toLocaleString demo_App (VStr (lit "escaneo"))
           (lit "+5 puntos por reciclaje") 49%N (lit "704103200000") 1704103200000%Z
           (VStr (lit "canje")) (lit "sin fecha")).
  - reflexivity.
  - reflexivity.
Defined.

(** *** Form validation *)

(** The stored sample address is well formed. *)
Lemma isValidEmail_iff_witness : isValidEmail demo_correo = true.
Proof.
  apply (proj2 (isValidEmail_iff demo_correo)).
  exists (lit "ana"), (lit "eco"), (lit "co").
  repeat split; try reflexivity; discriminate.
Defined.

(** A login form that passes. *)
Lemma validateLogin_accepts_witness :
  validateLogin (login_form demo_correo (lit "secreto")) = Normal [].
Proof.
  apply (proj2 (proj2 (validateLogin_accepts demo_correo (lit "secreto")))).
  split; [reflexivity|]. split; [reflexivity|]. simpl. lia.
Defined.

(** A register form that passes. *)
Lemma validateRegister_accepts_witness :
  validateRegister (register_form (lit "Ana") demo_correo (lit "secreto") (lit "secreto"))
  = Normal [].
Proof.
  apply (proj2 (proj2 (validateRegister_accepts (lit "Ana") demo_correo
                         (lit "secreto") (lit "secreto")))).
  split; [split; [reflexivity | simpl; lia]|].
  split; [reflexivity|].
  split; [split; [reflexivity | simpl; lia] | reflexivity].
Defined.

(** Three kinds of characters in three code units. *)
Lemma password_strength_kinds_witness :
  isStrong (validatePasswordStrength (lit "aB1")) = true.
Proof.
  apply (proj2 (proj2 (password_strength_kinds (lit "aB1")))).
  vm_compute. discriminate.
Defined.

(** A clean name comes back as it is; [null] gives the empty string. *)
Lemma sanitizeInput_safe_witness :
  sanitizeInput (VStr (lit "Ana")) = lit "Ana" /\ sanitizeInput VNull = [].
Proof.
  split.
  - apply (proj2 (proj2 (proj2 sanitizeInput_safe)) (lit "Ana")).
    + reflexivity.
    + reflexivity.
    + simpl. lia.
  - apply (proj1 (proj2 (proj2 sanitizeInput_safe)) VNull).
    intros s. discriminate.
Defined.

(** The same text twice. *)
Lemma escapeHtml_injective_witness :
  escapeHtml (lit "a<b") = escapeHtml (lit "a<b") /\ lit "a<b" = lit "a<b".
Proof.
  split; [reflexivity|].
  apply (escapeHtml_injective (lit "a<b") (lit "a<b")). reflexivity.
Defined.

(** A text without special characters is not changed. *)
Lemma escapeHtml_safe_witness : escapeHtml (lit "hola") = lit "hola".
Proof.
  apply (proj2 (proj2 (proj2 (escapeHtml_safe (lit "hola"))))). reflexivity.
Defined.

(** *** Points, rewards and history *)

(** The local record of 10 points read back as a server item. *)
Lemma local_echo_round_trip_witness :
  history_entry decimal_StringToNumber epoch_Date_parse epoch_toLocaleString
    (Item (VStr (lit "escaneo")) (VStr (lit "+10 puntos por reciclaje")) VUndefined)
  = Normal (local_entry (lit "Botella", JInt 10)).
Proof.
  apply (local_echo_round_trip decimal_StringToNumber epoch_Date_parse
           epoch_toLocaleString (lit "Botella") 10%Z).
  lia.
Defined.

(** A new local record shows on a fresh object and is hidden behind the
    server history of the sample object. *)
Lemma renderHistory_prefers_server_witness :
  renderHistory_data (addToHistory (lit "Botella") (JInt 10) new_App)
  = [local_entry (lit "Botella", JInt 10)]
  /\ renderHistory_data (addToHistory (lit "Botella") (JInt 10) demo_App)
     = [demo_entry].
Proof.
  split.
  - apply (proj1 (proj2 (proj2 (renderHistory_prefers_server decimal_StringToNumber
             epoch_Date_parse epoch_toLocaleString)))
             new_App (lit "Botella") (JInt 10)).
    reflexivity.
  - apply (proj2 (proj2 (proj2 (renderHistory_prefers_server decimal_StringToNumber
             epoch_Date_parse epoch_toLocaleString)))
             demo_App (lit "Botella") (JInt 10)).
    simpl. discriminate.
Defined.

(** One item of [/premios] becomes the sample reward, with id 1. *)
Lemma loadRewards_ids_witness :
  loadRewards_resume (PremiosFulfilled (Some (PremiosArray [demo_premio]))) new_App
  = (set_rewards [demo_reward] new_App, [RenderRewards], Normal tt).
Proof.
  apply (proj1 (loadRewards_ids new_App [demo_premio] [demo_reward] eq_refl)).
Defined.

(** A null after a good item: the sample object keeps its rewards. *)
Lemma loadRewards_all_or_nothing_witness :
  exists e,
    loadRewards_resume (PremiosFulfilled (Some (PremiosArray [demo_premio; PremioNull])))
                       demo_App
    = (demo_App, [ConsoleError e], Normal tt).
Proof.
  apply (loadRewards_all_or_nothing demo_App [demo_premio; PremioNull]).
  simpl. right. left. reflexivity.
Defined.

(** An item without a stock field cannot be redeemed. *)
Lemma unstocked_reward_not_claimable_witness :
  claimReward_begin decimal_StringToNumber (JInt 1) (Some demo_correo)
    (set_rewards [demo_reward_unstocked] demo_App)
  = (set_rewards [demo_reward_unstocked] demo_App, [], Returned).
Proof.
  apply (fun H => proj1 (unstocked_reward_not_claimable decimal_StringToNumber demo_App
                  [demo_premio_unstocked] [demo_reward_unstocked] 0%nat
                  (VStr (lit "Bono mercado")) (VNum (JInt 100)) VUndefined VUndefined
                  (Some demo_correo) eq_refl eq_refl H)).
  intros n. discriminate.
Defined.

(** With 120 points the reward of 150 is disabled and not redeemable; with
    200 points it is enabled and the request goes out. *)
Lemma reward_button_matches_guard_witness :
  claimReward_begin decimal_StringToNumber (JInt 1) (Some demo_correo) demo_App
  = (demo_App, [], Returned)
  /\ claimReward_begin decimal_StringToNumber (JInt 1) (Some demo_correo)
       (set_userPoints (JInt 200) demo_App)
     = (set_userPoints (JInt 200) demo_App,
        [Fetch (PostCanjear demo_correo (VStr (lit "Entrada cine")))], Awaiting).
Proof.
  split.
  - apply (proj2 (reward_button_matches_guard decimal_StringToNumber demo_App demo_reward
                    97%N (lit "na@eco.co") eq_refl)).
    reflexivity.
  - apply (proj1 (reward_button_matches_guard decimal_StringToNumber
                    (set_userPoints (JInt 200) demo_App) demo_reward
                    97%N (lit "na@eco.co") eq_refl)).
    reflexivity.
Defined.

(** A call, its failed settlement, and a second call 8 s after the first. *)
Lemma throttle_never_locks_out_witness :
  snd (step decimal_StringToNumber
         (run decimal_StringToNumber {| app := new_App; suspended := 0 |}
              [CallFetchPoints 10000 (Some demo_correo); SettleFetchPoints PointsRejected])
         (CallFetchPoints 18000 (Some demo_correo)))
  = [Fetch (GetPuntos demo_correo); Fetch (GetPuntosAcumulados demo_correo)].
Proof.
  apply (throttle_never_locks_out decimal_StringToNumber
           {| app := new_App; suspended := 0 |}
           [CallFetchPoints 10000 (Some demo_correo); SettleFetchPoints PointsRejected]
           18000%Z 97%N (lit "na@eco.co")).
  - right. split; reflexivity.
  - reflexivity.
  - simpl. lia.
Defined.


(** Two items give two entries. *)
Lemma history_one_entry_per_item_witness :
  List.length (serverHistory
     (fst (fst (loadHistory_resume decimal_StringToNumber epoch_Date_parse
                  epoch_toLocaleString
                  (HistoryFulfilled
                     (Some (HistArray [item_escaneo (VStr (lit "100")); item_canje])))
                  new_App))))
  = 2%nat.
Proof.
  apply (proj1 (history_one_entry_per_item decimal_StringToNumber epoch_Date_parse
                  epoch_toLocaleString new_App
                  [item_escaneo (VStr (lit "100")); item_canje] _ eq_refl)).
Defined.
